(** * Inventory catalog service (index.js): shallow embedding and properties

    The service keeps two module-level variables, [inventoryItems] (a plain
    object used as a map from ids to item objects) and [nextId], and stores
    uploaded photos as files of the cache directory.  Every route handler is
    embedded as a function from the state before the request to the response
    and the state after it.

    Conventions of the embedding:
    - JavaScript numbers that hold integers are [Z]; this is exact below
      2^53, a bound the id counter (one step per registration) and
      [Date.now()] stay under.  The result of [parseInt] is [NaN] or an
      integer; for a digit string of 2^53 or more JavaScript rounds where
      [Z] does not, which changes neither whether the number is [NaN] nor
      whether it is an id of the catalog.
    - Strings are byte strings holding UTF-8 text.
    - Request fields have the types the route's schema declares (text
      fields are strings; a field that was not sent is [None], JavaScript's
      [undefined]).
    - A request is handled from its first middleware to its response
      without another request in between; [fs.unlink] is taken as finished
      when the handler returns, also where the source does not await it.
    - The file system holds only what the service wrote: the cache
      directory is a map from file names to contents, [fs.unlink] fails
      exactly on a missing file. *)

From Stdlib Require Import ZArith Lia Ascii String.
From stdpp Require Import base numbers list strings pretty gmap fin_maps sorting.

Set Warnings "-register-all".

Open Scope string_scope.
Open Scope list_scope.
Open Scope Z_scope.

(** ** JavaScript values *)

(** The numbers [parseInt] returns and [nextId] holds. *)
Inductive number :=
  | NaN
  | Int (z : Z).

Global Instance number_eq_dec : EqDecision number.
Proof. solve_decision. Defined.

Definition number_to_option (n : number) : option Z :=
  match n with NaN => None | Int z => Some z end.

Definition number_of_option (o : option Z) : number :=
  match o with None => NaN | Some z => Int z end.

Global Instance number_countable : Countable number.
Proof.
  apply (inj_countable' number_to_option number_of_option).
  by intros [].
Defined.

(** [String(n)], as template literals and property keys apply it. *)
Definition ToString (n : number) : string :=
  match n with
  | NaN => "NaN"
  | Int z => pretty z
  end.

(** Truthiness of a value that is a string, [null] or [undefined]. *)
Definition truthy (v : option string) : bool :=
  match v with
  | Some s => bool_decide (s ≠ "")
  | None => false
  end.

(** JSON documents, as [res.json] sends them.  An object is the list of its
    fields in the order the object literal gives them. *)
Inductive json :=
  | JNull
  | JNum (z : Z)
  | JStr (s : string)
  | JArr (l : list json)
  | JObj (fields : list (string * json)).

Fixpoint assoc (k : string) (fields : list (string * json)) : option json :=
  match fields with
  | [] => None
  | (k', v) :: rest => if decide (k' = k) then Some v else assoc k rest
  end.

(** [j.k]: [None] when [j] has no field [k]. *)
Definition field (k : string) (j : json) : option json :=
  match j with
  | JObj fields => assoc k fields
  | _ => None
  end.

Definition keys (j : json) : list string :=
  match j with
  | JObj fields => fields.*1
  | _ => []
  end.

(** ** White space and [parseInt] *)

Definition code (c : ascii) : N := N_of_ascii c.

(** One-byte members of the class [\s]: TAB, LF, VT, FF, CR, SP. *)
Definition ws1 (c : ascii) : bool :=
  let n := code c in
  ((9 <=? n) && (n <=? 13) || (n =? 32))%N.

(** U+00A0, encoded in two bytes. *)
Definition ws2 (c1 c2 : ascii) : bool :=
  ((code c1 =? 194) && (code c2 =? 160))%N.

(** Three-byte members: U+1680, U+2000..U+200A, U+2028, U+2029, U+202F,
    U+205F, U+3000, U+FEFF. *)
Definition ws3 (c1 c2 c3 : ascii) : bool :=
  let '(a, b, c) := (code c1, code c2, code c3) in
  ((a =? 225) && (b =? 154) && (c =? 128)
   || (a =? 226) && (b =? 128)
      && ((128 <=? c) && (c <=? 138) || (c =? 168) || (c =? 169) || (c =? 175))
   || (a =? 226) && (b =? 129) && (c =? 159)
   || (a =? 227) && (b =? 128) && (c =? 128)
   || (a =? 239) && (b =? 187) && (c =? 191))%N.

(** Leading white space removed, the first step of [parseInt]. *)
Fixpoint skip_ws (s : string) : string :=
  match s with
  | String c1 s1 =>
      if ws1 c1 then skip_ws s1
      else match s1 with
           | String c2 s2 =>
               if ws2 c1 c2 then skip_ws s2
               else match s2 with
                    | String c3 s3 => if ws3 c1 c2 c3 then skip_ws s3 else s
                    | EmptyString => s
                    end
           | EmptyString => s
           end
  | EmptyString => s
  end.

(** [str.replace(/\s/g, '_')]. *)
Fixpoint replace_ws (s : string) : string :=
  match s with
  | String c1 s1 =>
      if ws1 c1 then String "_" (replace_ws s1)
      else match s1 with
           | String c2 s2 =>
               if ws2 c1 c2 then String "_" (replace_ws s2)
               else match s2 with
                    | String c3 s3 =>
                        if ws3 c1 c2 c3 then String "_" (replace_ws s3)
                        else String c1 (replace_ws s1)
                    | EmptyString => String c1 (replace_ws s1)
                    end
           | EmptyString => String c1 (replace_ws s1)
           end
  | EmptyString => EmptyString
  end.

(** The value of [c] as a digit in radix [R] (10 or 16). *)
Definition digit (R : Z) (c : ascii) : option Z :=
  let n := Z.of_N (code c) in
  let d := if ((48 <=? n) && (n <=? 57))%Z then Some (n - 48)
           else if ((97 <=? n) && (n <=? 122))%Z then Some (n - 87)
           else if ((65 <=? n) && (n <=? 90))%Z then Some (n - 55)
           else None in
  match d with
  | Some v => if (v <? R)%Z then Some v else None
  | None => None
  end.

(** The longest prefix of radix-[R] digits, read as a number; [acc] is
    [None] as long as no digit was read. *)
Fixpoint digits (R : Z) (s : string) (acc : option Z) : option Z :=
  match s with
  | String c s' =>
      match digit R c with
      | Some d => digits R s' (Some (R * default 0 acc + d))
      | None => acc
      end
  | EmptyString => acc
  end.

(** [parseInt(s)] with no radix argument. *)
Definition parseInt (s : string) : number :=
  let S0 := skip_ws s in
  let '(sign, S1) :=
    match S0 with
    | String "-" r => (-1, r)
    | String "+" r => (1, r)
    | _ => (1, S0)
    end in
  let '(R, S2) :=
    match S1 with
    | String "0" (String "x" r) => (16, r)
    | String "0" (String "X" r) => (16, r)
    | _ => (10, S1)
    end in
  match digits R S2 None with
  | None => NaN
  | Some n => Int (sign * n)
  end.

(** A value read from a request body and passed to [parseInt] or spliced
    into a template literal: a missing field reads as ["undefined"]. *)
Definition text (v : option string) : string := default "undefined" v.

(** ** Data model *)

(** An entry of [inventoryItems].  [Photo] is the name of the file in the
    cache directory, [None] for [null]. *)
Record item := Item {
  ID : Z;
  InventoryName : string;
  Description : string;
  Photo : option string;
}.

(** What [console.error] received. *)
Inductive log :=
  | UnlinkError (file : string)
  | SendFileError (file : string).

(** The two module variables, the cache directory and the console. *)
Record state := State {
  inventoryItems : gmap number item;
  nextId : Z;
  files : gmap string (list Byte.byte);
  console : list log;
}.

Definition set_inventoryItems (m : gmap number item) (st : state) : state :=
  State m (nextId st) (files st) (console st).

Definition set_nextId (n : Z) (st : state) : state :=
  State (inventoryItems st) n (files st) (console st).

Definition set_files (fs : gmap string (list Byte.byte)) (st : state) : state :=
  State (inventoryItems st) (nextId st) fs (console st).

Definition set_console (c : list log) (st : state) : state :=
  State (inventoryItems st) (nextId st) (files st) c.

(** [let inventoryItems = {}; let nextId = 1;] with a cache directory that
    holds [fs0]. *)
Definition start (fs0 : gmap string (list Byte.byte)) : state :=
  State ∅ 1 fs0 [].

Definition initial : state := start ∅.

(** ** Responses *)

Inductive payload :=
  | Json (j : json)
  | File (content_type : string) (data : list Byte.byte).

Record response := Response {
  status : Z;
  body : payload;
}.

Definition error (code : Z) (msg : string) : response :=
  Response code (Json (JObj [("error", JStr msg)])).

(** ** The cache directory *)

(** [fs.unlink(path.join(cache, f)).catch(console.error)]: every call of
    the source has this shape. *)
Definition unlink (f : string) (st : state) : state :=
  match files st !! f with
  | Some _ => set_files (delete f (files st)) st
  | None => set_console (console st ++ [UnlinkError f]) st
  end.

(** [if (photo) unlink(photo)], for a file name that may be [null]. *)
Definition unlink_photo (photo : option string) (st : state) : state :=
  match photo with
  | Some f => if truthy photo then unlink f st else st
  | None => st
  end.

(** An uploaded file part. *)
Record upload := Upload {
  originalname : string;
  data : list Byte.byte;
}.

(** The [filename] callback of [uploadStorage]; [now] is [Date.now()]. *)
Definition filename (now : Z) (file : upload) : string :=
  pretty now +:+ "-" +:+ replace_ws (originalname file).

(** [upload.single('photo')]: the file part, when the request has one, is
    written to the cache directory before the handler runs; the result is
    [req.file.filename], [None] when [req.file] is undefined. *)
Definition upload_single (photo : option upload) (now : Z) (st : state)
  : option string * state :=
  match photo with
  | Some file =>
      let f := filename now file in
      (Some f, set_files (<[f := data file]> (files st)) st)
  | None => (None, st)
  end.

(** ** Helpers of index.js *)

Definition photo_path (id : Z) : string :=
  "/inventory/" +:+ pretty id +:+ "/photo".

Definition prepareItemResponse (it : item) : json :=
  JObj [("ID", JNum (ID it));
        ("InventoryName", JStr (InventoryName it));
        ("Description", JStr (Description it));
        ("PhotoLink", if truthy (Photo it) then JStr (photo_path (ID it))
                      else JNull)].

(** [findItem(id, res)]: the item, or the 404 response it has sent. *)
Definition findItem (id : number) (st : state) : response + item :=
  match inventoryItems st !! id with
  | Some it => inr it
  | None => inl (error 404 ("Річ з ID " +:+ ToString id +:+ " не знайдена"))
  end.

(** Order of the keys of an object: ascending integers, other keys last.
    The keys the service creates are the ids, inserted in ascending
    order. *)
Definition key_le (a b : number * item) : Prop :=
  match a.1, b.1 with
  | Int x, Int y => x ≤ y
  | _, NaN => True
  | NaN, Int _ => False
  end.

Global Instance key_le_dec : RelDecision key_le.
Proof.
  intros [[|x] ?] [[|y] ?]; unfold key_le; simpl; apply _.
Defined.

Definition Object_values (m : gmap number item) : list item :=
  (merge_sort key_le (map_to_list m)).*2.

(** ** Route handlers *)

(** [app.post('/register', upload.single('photo'), ...)], the handler;
    [req_file] is the result of the middleware. *)
Definition register (inventory_name description : option string)
    (req_file : option string) (st : state) : response * state :=
  let photoFilename := req_file in
  match inventory_name with
  | Some name =>
      if truthy inventory_name then
        let newId := nextId st in
        let st1 := set_nextId (newId + 1) st in
        let new := {| ID := newId;
                      InventoryName := name;
                      Description := if truthy description
                                     then default "" description else "";
                      Photo := photoFilename |} in
        let st2 := set_inventoryItems (<[Int newId := new]> (inventoryItems st1)) st1 in
        match inventoryItems st2 !! Int newId with
        | Some it =>
            (Response 201 (Json (JObj
               [("message", JStr "Інвентар успішно зареєстровано");
                ("item", prepareItemResponse it)])), st2)
        | None => (error 500 "Internal Server Error", st2)
        end
      else
        (error 400 "Поле inventory_name є обов'язковим.",
         unlink_photo photoFilename st)
  | None =>
      (error 400 "Поле inventory_name є обов'язковим.",
       unlink_photo photoFilename st)
  end.

(** [app.get('/inventory', ...)] *)
Definition list_items (st : state) : response * state :=
  (Response 200 (Json (JArr (prepareItemResponse <$> Object_values (inventoryItems st)))),
   st).

(** [app.get('/inventory/:id', ...)] *)
Definition get_item (id : string) (st : state) : response * state :=
  match findItem (parseInt id) st with
  | inl res => (res, st)
  | inr it => (Response 200 (Json (prepareItemResponse it)), st)
  end.

(** [app.put('/inventory/:id', ...)]: the assignments change the object
    that [inventoryItems] holds under the looked-up key. *)
Definition update_item (id : string) (name description : option string)
    (st : state) : response * state :=
  match findItem (parseInt id) st with
  | inl res => (res, st)
  | inr it =>
      let it1 := match name with
                 | Some v => Item (ID it) v (Description it) (Photo it)
                 | None => it
                 end in
      let it2 := match description with
                 | Some v => Item (ID it1) (InventoryName it1) v (Photo it1)
                 | None => it1
                 end in
      (Response 200 (Json (prepareItemResponse it2)),
       set_inventoryItems (<[parseInt id := it2]> (inventoryItems st)) st)
  end.

(** [app.delete('/inventory/:id', ...)] *)
Definition delete_item (id : string) (st : state) : response * state :=
  match findItem (parseInt id) st with
  | inl res => (res, st)
  | inr it =>
      let st1 := unlink_photo (Photo it) st in
      (Response 200 (Json (JObj
         [("message", JStr ("Річ з ID " +:+ pretty (ID it) +:+ " успішно видалена"))])),
       set_inventoryItems (delete (Int (ID it)) (inventoryItems st1)) st1)
  end.

(** [res.sendFile] after [res.setHeader('Content-Type', 'image/jpeg')],
    for a request without range or cache headers. *)
Definition sendFile (f : string) (st : state) : response * state :=
  match files st !! f with
  | Some bytes => (Response 200 (File "image/jpeg" bytes), st)
  | None =>
      (error 500 "Помилка сервера",
       set_console (console st ++ [SendFileError f]) st)
  end.

(** [app.get('/inventory/:id/photo', ...)] *)
Definition get_photo (id : string) (st : state) : response * state :=
  let n := parseInt id in
  let not_found := error 404 ("Фото для ID " +:+ ToString n +:+ " не знайдено") in
  match inventoryItems st !! n with
  | Some it =>
      match Photo it with
      | Some f => if truthy (Photo it) then sendFile f st else (not_found, st)
      | None => (not_found, st)
      end
  | None => (not_found, st)
  end.

(** [app.put('/inventory/:id/photo', upload.single('photo'), ...)], the
    handler. *)
Definition replace_photo (id : string) (req_file : option string) (st : state)
  : response * state :=
  match findItem (parseInt id) st with
  | inl res => (res, st)
  | inr it =>
      match req_file with
      | None => (error 400 "Файл фото не надано", st)
      | Some f =>
          let st1 := unlink_photo (Photo it) st in
          let it' := Item (ID it) (InventoryName it) (Description it) (Some f) in
          (Response 200 (Json (JObj
             [("message", JStr ("Фото для ID " +:+ pretty (ID it') +:+ " успішно оновлено"));
              ("item", prepareItemResponse it')])),
           set_inventoryItems (<[parseInt id := it']> (inventoryItems st1)) st1)
      end
  end.

(** [app.post('/search', ...)] *)
Definition search (id has_photo : option string) (st : state) : response * state :=
  let itemId := parseInt (text id) in
  match inventoryItems st !! itemId with
  | None => (error 404 ("Річ з ID " +:+ text id +:+ " не знайдена"), st)
  | Some it =>
      let responseItem :=
        [("ID", JNum (ID it));
         ("InventoryName", JStr (InventoryName it));
         ("Description", JStr (Description it))] in
      let responseItem' :=
        if bool_decide (has_photo = Some "on") && truthy (Photo it)
        then (responseItem ++ [("PhotoLink", JStr (photo_path (ID it)))])%list
        else responseItem in
      (Response 200 (Json (JObj responseItem')), st)
  end.

(** ** Requests *)

(** A request to one of the eight routes: path parameters and body fields
    as sent, the uploaded file part, and for the two upload routes the
    value of [Date.now()] when the file is named. *)
Inductive request :=
  | Register (inventory_name description : option string)
             (photo : option upload) (now : Z)
  | ListItems
  | GetItem (id : string)
  | UpdateItem (id : string) (name description : option string)
  | DeleteItem (id : string)
  | GetPhoto (id : string)
  | ReplacePhoto (id : string) (photo : option upload) (now : Z)
  | Search (id has_photo : option string).

(** A request passes the route's middleware, then its handler. *)
Definition handle (r : request) (st : state) : response * state :=
  match r with
  | Register name description photo now =>
      let '(req_file, st1) := upload_single photo now st in
      register name description req_file st1
  | ListItems => list_items st
  | GetItem id => get_item id st
  | UpdateItem id name description => update_item id name description st
  | DeleteItem id => delete_item id st
  | GetPhoto id => get_photo id st
  | ReplacePhoto id photo now =>
      let '(req_file, st1) := upload_single photo now st in
      replace_photo id req_file st1
  | Search id has_photo => search id has_photo st
  end.

(** The responses to a sequence of requests, and the state after them. *)
Fixpoint run (rs : list request) (st : state) : list response * state :=
  match rs with
  | [] => ([], st)
  | r :: rs' =>
      let '(res, st1) := handle r st in
      let '(out, st2) := run rs' st1 in
      (res :: out, st2)
  end.

Definition responses (rs : list request) (st : state) : list response :=
  (run rs st).1.

Definition exec (rs : list request) (st : state) : state :=
  (run rs st).2.

(** The states the service can be in. *)
Definition reachable (st : state) : Prop :=
  ∃ fs0 rs, exec rs (start fs0) = st.

(** The id a response to Register reports: the [ID] of its [item]. *)
Definition assigned_id (res : response) : option Z :=
  match status res, body res with
  | 201, Json j =>
      match field "item" j with
      | Some v => match field "ID" v with Some (JNum n) => Some n | _ => None end
      | None => None
      end
  | _, _ => None
  end.

Definition assigned_ids (out : list response) : list Z :=
  omap assigned_id out.

(** An end-to-end scenario: register a drill, ask for its photo, rename
    it, list, delete it, ask for it again. *)
Definition drill : list request :=
  [Register (Some "Drill") (Some "Cordless drill") None 5;
   GetPhoto "1";
   UpdateItem "1" (Some "Drill Mk2") None;
   ListItems;
   DeleteItem "1";
   GetItem "1"].

(** What holds of the catalog in every reachable state: an item sits under
    the key of its own [ID], ids are positive and below the counter, and a
    stored file name is not the empty string. *)
Definition catalog_ok (st : state) : Prop :=
  1 ≤ nextId st ∧
  ∀ k it, inventoryItems st !! k = Some it →
    k = Int (ID it) ∧ 1 ≤ ID it < nextId st ∧ Photo it ≠ Some "".

(** ** Further definitions *)

(** The file name the upload middleware gives to the file part of a
    request, [None] for a request without one. *)
Definition upload_name (r : request) : option string :=
  match r with
  | Register _ _ (Some file) now => Some (filename now file)
  | ReplacePhoto _ (Some file) now => Some (filename now file)
  | _ => None
  end.

Definition upload_names (rs : list request) : list string :=
  omap upload_name rs.

(** [s] starts with a character of the class [\s]. *)
Definition ws_head (s : string) : bool :=
  match s with
  | String c1 s1 =>
      ws1 c1
      || match s1 with
         | String c2 s2 =>
             ws2 c1 c2
             || match s2 with
                | String c3 _ => ws3 c1 c2 c3
                | EmptyString => false
                end
         | EmptyString => false
         end
  | EmptyString => false
  end.

(** [/\s/.test(s)]: a character of the class [\s] occurs in [s]. *)
Fixpoint has_ws (s : string) : bool :=
  match s with
  | String _ s' => ws_head s || has_ws s'
  | EmptyString => false
  end.

(** Where [parseInt] stops reading digits: at the end of the string or at
    a character that is no decimal digit; [x] and [X] are excluded because
    after a lone [0] they announce a hexadecimal number. *)
Definition stops (rest : string) : Prop :=
  match rest with
  | EmptyString => True
  | String c _ => digit 10 c = None ∧ c ≠ "x"%char ∧ c ≠ "X"%char
  end.

(** Some catalog entry refers to the file [f]. *)
Definition referenced (st : state) (f : string) : Prop :=
  ∃ k it, inventoryItems st !! k = Some it ∧ Photo it = Some f.

(** No two entries refer to the same file. *)
Definition distinct_photos (m : gmap number item) : Prop :=
  ∀ k1 k2 it1 it2 f,
    m !! k1 = Some it1 → m !! k2 = Some it2 →
    Photo it1 = Some f → Photo it2 = Some f → k1 = k2.

(** Catalog and cache directory agree: every file an entry refers to is
    there, no two entries refer to the same file, and nothing was logged. *)
Definition photos_ok (st : state) : Prop :=
  (∀ f, referenced st f → is_Some (files st !! f)) ∧
  distinct_photos (inventoryItems st) ∧
  console st = [].

(** Every character of [s] is an ASCII character other than white space. *)
Fixpoint plain (s : string) : Prop :=
  match s with
  | String c s' => (code c < 128)%N ∧ ws1 c = false ∧ plain s'
  | EmptyString => True
  end.

(** The requests of the four routes that only read. *)
Definition read_only (r : request) : bool :=
  match r with
  | ListItems | GetItem _ | GetPhoto _ | Search _ _ => true
  | _ => false
  end.

(** The number of Delete requests of a run that are answered with 200. *)
Fixpoint deletions (rs : list request) (st : state) : nat :=
  match rs with
  | [] => 0
  | r :: rs' =>
      (match r with
       | DeleteItem _ =>
           if bool_decide (status (handle r st).1 = 200%Z) then 1 else 0
       | _ => 0
       end + deletions rs' (handle r st).2)%nat
  end.

(** [a || b] for values that are a string or [undefined]. *)
Definition or_else (a b : option string) : option string :=
  if truthy a then a else b.

(** [process.env.HOST || opts.host || '0.0.0.0'] *)
Definition host (env_HOST opts_host : option string) : string :=
  text (or_else (or_else env_HOST opts_host) (Some "0.0.0.0")).

(** [parseInt(process.env.PORT || opts.port || '3000')] *)
Definition port (env_PORT opts_port : option string) : number :=
  parseInt (text (or_else (or_else env_PORT opts_port) (Some "3000"))).

(** * Properties *)

(** ** Evaluation on examples *)

Example parseInt_examples :
  parseInt "12abc" = Int 12 ∧ parseInt "  -7" = Int (-7) ∧
  parseInt "0x1F" = Int 31 ∧ parseInt "abc" = NaN ∧ parseInt "" = NaN ∧
  parseInt "-" = NaN ∧ parseInt "undefined" = NaN.
Proof. repeat split; reflexivity. Qed.

Example filename_example :
  filename 1700000000000 (Upload "my drill 2.jpg" []) = "1700000000000-my_drill_2.jpg".
Proof. reflexivity. Qed.

Example drill_statuses :
  status <$> responses drill initial = [201; 404; 200; 200; 200; 404] ∧
  assigned_ids (responses drill initial) = [1] ∧
  nextId (exec drill initial) = 2 ∧
  inventoryItems (exec drill initial) = ∅.
Proof. repeat split; reflexivity. Qed.

Example drill_renamed :
  responses drill initial !! 2%nat
  = Some (Response 200 (Json (JObj
      [("ID", JNum 1); ("InventoryName", JStr "Drill Mk2");
       ("Description", JStr "Cordless drill"); ("PhotoLink", JNull)]))).
Proof. reflexivity. Qed.

(** ** File names and photo paths *)

Lemma pretty_N_go_head (x : N) (s : string) :
  (0 < x)%N → ∃ c r, pretty_N_go x s = String c r ∧ c ≠ "/"%char.
Proof.
  revert s. induction (N.lt_wf_0 x) as [x _ IH]; intros s Hx.
  rewrite pretty_N_go_step by done.
  destruct (decide (x `div` 10 = 0)%N) as [->|Hq].
  - rewrite pretty_N_go_0. eexists _, _. split; [done|].
    unfold pretty_N_char. by repeat case_match.
  - apply IH; [by apply N.div_lt | by apply N.neq_0_lt_0].
Qed.

Lemma pretty_Z_head (z : Z) (s : string) :
  ∃ c r, pretty z +:+ s = String c r ∧ c ≠ "/"%char.
Proof.
  destruct z as [|p|p]; unfold pretty, pretty_Z.
  - by eexists _, _.
  - unfold pretty, pretty_positive, pretty, pretty_N.
    case_decide; [done|].
    destruct (pretty_N_go_head (N.pos p) "") as (c & r & -> & ?); [lia|].
    by eexists _, _.
  - by eexists _, _.
Qed.

Lemma filename_head (now : Z) (file : upload) :
  ∃ c r, filename now file = String c r ∧ c ≠ "/"%char.
Proof. apply pretty_Z_head. Qed.

Lemma filename_nonempty (now : Z) (file : upload) : filename now file ≠ "".
Proof. by destruct (filename_head now file) as (c & r & -> & _). Qed.

Lemma filename_truthy (now : Z) (file : upload) :
  truthy (Some (filename now file)) = true.
Proof. apply bool_decide_eq_true, filename_nonempty. Qed.

Lemma unlink_photo_filename (now : Z) (file : upload) (st : state) :
  unlink_photo (Some (filename now file)) st = unlink (filename now file) st.
Proof. unfold unlink_photo. by rewrite filename_truthy. Qed.

Lemma filename_not_photo_path (now : Z) (file : upload) (id : Z) :
  filename now file ≠ photo_path id.
Proof.
  destruct (filename_head now file) as (c & r & -> & Hc).
  unfold photo_path. change ("/inventory/" +:+ ?x) with
    (String "/" ("inventory/" +:+ x)).
  by intros [= -> _].
Qed.

(** ** The catalog invariant *)

Lemma unlink_inventoryItems f st : inventoryItems (unlink f st) = inventoryItems st.
Proof. unfold unlink. by case_match. Qed.

Lemma unlink_nextId f st : nextId (unlink f st) = nextId st.
Proof. unfold unlink. by case_match. Qed.

Lemma unlink_files f st : files (unlink f st) = delete f (files st).
Proof.
  unfold unlink. case_match eqn:Hf; simpl; [done|].
  symmetry. by apply delete_id.
Qed.

Lemma unlink_photo_inventoryItems p st :
  inventoryItems (unlink_photo p st) = inventoryItems st.
Proof.
  unfold unlink_photo. repeat case_match; auto using unlink_inventoryItems.
Qed.

Lemma unlink_photo_nextId p st : nextId (unlink_photo p st) = nextId st.
Proof. unfold unlink_photo. repeat case_match; auto using unlink_nextId. Qed.

Lemma upload_single_inventoryItems photo now st :
  inventoryItems (upload_single photo now st).2 = inventoryItems st.
Proof. by destruct photo. Qed.

Lemma upload_single_nextId photo now st :
  nextId (upload_single photo now st).2 = nextId st.
Proof. by destruct photo. Qed.

Lemma upload_single_name photo now st :
  (upload_single photo now st).1 = filename now <$> photo.
Proof. by destruct photo. Qed.

Lemma catalog_ok_same st st' :
  inventoryItems st' = inventoryItems st → nextId st' = nextId st →
  catalog_ok st → catalog_ok st'.
Proof. unfold catalog_ok. by intros -> ->. Qed.

Lemma findItem_inr n st it :
  findItem n st = inr it ↔ inventoryItems st !! n = Some it.
Proof. unfold findItem. case_match; naive_solver. Qed.

Lemma findItem_inl n st res :
  findItem n st = inl res →
  inventoryItems st !! n = None ∧ status res = 404.
Proof. unfold findItem. case_match; naive_solver. Qed.

Lemma register_ok name description req_file st :
  req_file ≠ Some "" →
  catalog_ok st → catalog_ok (register name description req_file st).2.
Proof.
  intros Hf [Hn Hitems]. unfold register.
  destruct name as [name|]; [destruct (truthy (Some name))|]; simpl;
    try (apply (catalog_ok_same st);
         [apply unlink_photo_inventoryItems | apply unlink_photo_nextId | done]).
  rewrite lookup_insert_eq. unfold catalog_ok. simpl. split; [lia|].
  intros k it. rewrite lookup_insert. case_decide as Hk.
  - intros [= <-]. simpl. split; [done|]. split; [lia|done].
  - intros Hit. destruct (Hitems k it Hit) as (? & ? & ?).
    split; [done|]. split; [lia|done].
Qed.

Lemma update_item_ok id name description st :
  catalog_ok st → catalog_ok (update_item id name description st).2.
Proof.
  intros [Hn Hitems]. unfold update_item.
  destruct (findItem (parseInt id) st) as [res|it] eqn:Hfind; [done|].
  apply findItem_inr in Hfind. destruct (Hitems _ _ Hfind) as (Hk & ? & ?).
  split; [done|]. simpl. intros k it'. rewrite lookup_insert.
  case_decide as Hk'; [|by apply Hitems].
  intros [= <-]. subst k. by destruct name, description.
Qed.

Lemma delete_item_ok id st :
  catalog_ok st → catalog_ok (delete_item id st).2.
Proof.
  intros [Hn Hitems]. unfold delete_item.
  destruct (findItem (parseInt id) st) as [res|it] eqn:Hfind; [done|].
  split; simpl; rewrite ?unlink_photo_nextId, ?unlink_photo_inventoryItems; [done|].
  intros k it' [_ Hit]%lookup_delete_Some. by apply Hitems.
Qed.

Lemma replace_photo_ok id req_file st :
  req_file ≠ Some "" →
  catalog_ok st → catalog_ok (replace_photo id req_file st).2.
Proof.
  intros Hf [Hn Hitems]. unfold replace_photo.
  destruct (findItem (parseInt id) st) as [res|it] eqn:Hfind; [done|].
  destruct req_file as [f|]; [|done].
  apply findItem_inr in Hfind. destruct (Hitems _ _ Hfind) as (Hk & ? & ?).
  split; simpl; rewrite ?unlink_photo_nextId, ?unlink_photo_inventoryItems; [done|].
  intros k it'. rewrite lookup_insert.
  case_decide as Hk'; [|by apply Hitems].
  intros [= <-]. subst k. simpl. repeat split; [done|lia..|done].
Qed.

Lemma upload_single_ok photo now st :
  catalog_ok st →
  (upload_single photo now st).1 ≠ Some "" ∧
  catalog_ok (upload_single photo now st).2.
Proof.
  intros Hok. destruct photo as [file|]; simpl; [|done].
  split; [|done]. intros [= E]. by apply filename_nonempty in E.
Qed.

Lemma handle_ok r st : catalog_ok st → catalog_ok (handle r st).2.
Proof.
  intros Hok. destruct r; simpl.
  - destruct (upload_single_ok photo now st Hok) as [? ?].
    destruct (upload_single photo now st). by apply register_ok.
  - done.
  - unfold get_item. by case_match.
  - by apply update_item_ok.
  - by apply delete_item_ok.
  - unfold get_photo, sendFile. by repeat case_match.
  - destruct (upload_single_ok photo now st Hok) as [? ?].
    destruct (upload_single photo now st). by apply replace_photo_ok.
  - unfold search. by case_match.
Qed.

Lemma run_cons r rs st :
  run (r :: rs) st =
  ((handle r st).1 :: (run rs (handle r st).2).1, (run rs (handle r st).2).2).
Proof. simpl. destruct (handle r st), (run rs _). done. Qed.

Lemma exec_cons r rs st : exec (r :: rs) st = exec rs (handle r st).2.
Proof. unfold exec. by rewrite run_cons. Qed.

Lemma responses_cons r rs st :
  responses (r :: rs) st = (handle r st).1 :: responses rs (handle r st).2.
Proof. unfold responses. by rewrite run_cons. Qed.

Lemma exec_app rs1 rs2 st : exec (rs1 ++ rs2) st = exec rs2 (exec rs1 st).
Proof.
  revert st. induction rs1 as [|r rs1 IH]; intros st; [done|].
  simpl app. by rewrite !exec_cons.
Qed.

Lemma responses_app rs1 rs2 st :
  responses (rs1 ++ rs2) st = (responses rs1 st ++ responses rs2 (exec rs1 st))%list.
Proof.
  revert st. induction rs1 as [|r rs1 IH]; intros st; [done|].
  simpl app. by rewrite !responses_cons, exec_cons, IH.
Qed.

Lemma exec_ok rs st : catalog_ok st → catalog_ok (exec rs st).
Proof.
  revert st. induction rs as [|r rs IH]; intros st Hok; [done|].
  rewrite exec_cons. by apply IH, handle_ok.
Qed.

Lemma start_ok fs0 : catalog_ok (start fs0).
Proof. split; [done|]. intros k it. simpl. by rewrite lookup_empty. Qed.

Lemma reachable_ok st : reachable st → catalog_ok st.
Proof. intros (fs0 & rs & <-). apply exec_ok, start_ok. Qed.

Lemma reachable_start fs0 : reachable (start fs0).
Proof. by exists fs0, []. Qed.

Lemma reachable_handle r st : reachable st → reachable (handle r st).2.
Proof.
  intros (fs0 & rs & <-). exists fs0, (rs ++ [r])%list.
  by rewrite exec_app, exec_cons.
Qed.

Lemma reachable_exec rs st : reachable st → reachable (exec rs st).
Proof.
  intros (fs0 & rs0 & <-). exists fs0, (rs0 ++ rs)%list. by rewrite exec_app.
Qed.

(** ** Ids *)

Lemma register_truthy_name name description req_file st :
  truthy name = true →
  register name description req_file st =
  let it := {| ID := nextId st;
               InventoryName := default "" name;
               Description := if truthy description then default "" description else "";
               Photo := req_file |} in
  (Response 201 (Json (JObj
     [("message", JStr "Інвентар успішно зареєстровано");
      ("item", prepareItemResponse it)])),
   State (<[Int (nextId st) := it]> (inventoryItems st)) (nextId st + 1)
         (files st) (console st)).
Proof.
  intros Hname. unfold register. destruct name as [name|]; [|done].
  rewrite Hname. simpl. by rewrite lookup_insert_eq.
Qed.

Lemma register_falsy_name name description req_file st :
  truthy name = false →
  register name description req_file st =
  (error 400 "Поле inventory_name є обов'язковим.", unlink_photo req_file st).
Proof.
  intros Hname. unfold register. destruct name as [name|]; [|done].
  by rewrite Hname.
Qed.

Lemma handle_nextId r st :
  nextId (handle r st).2 = nextId st ∨
  (nextId (handle r st).2 = nextId st + 1 ∧
   assigned_id (handle r st).1 = Some (nextId st)).
Proof.
  destruct r; simpl.
  - pose proof (upload_single_nextId photo now st) as Hn.
    destruct (upload_single photo now st) as [req_file st1]. simpl in Hn.
    destruct (truthy inventory_name) eqn:Hname.
    + rewrite register_truthy_name by done. right. simpl. by rewrite Hn.
    + rewrite register_falsy_name by done. left. simpl.
      by rewrite unlink_photo_nextId.
  - by left.
  - left. unfold get_item. by case_match.
  - left. unfold update_item. by case_match.
  - left. unfold delete_item. case_match; simpl; [done|].
    by rewrite unlink_photo_nextId.
  - left. unfold get_photo, sendFile. by repeat case_match.
  - pose proof (upload_single_nextId photo now st) as Hn.
    destruct (upload_single photo now st) as [req_file st1]. simpl in Hn.
    left. unfold replace_photo. repeat case_match; simpl; try done.
    by rewrite unlink_photo_nextId.
  - left. unfold search. by case_match.
Qed.

Lemma assigned_id_status res n : assigned_id res = Some n → status res = 201.
Proof.
  unfold assigned_id. destruct (decide (status res = 201)) as [->|Hs]; [done|].
  by repeat case_match.
Qed.

(** Closes a goal whose premise says that a response with another status
    than 201 reports an assigned id. *)
Ltac not_created :=
  let H := fresh in
  intros H%assigned_id_status;
  repeat match goal with
         | E : findItem _ _ = inl _ |- _ => apply findItem_inl in E as [_ E]
         end;
  simpl in *; congruence.

Lemma handle_assigned r st n :
  assigned_id (handle r st).1 = Some n →
  n = nextId st ∧ nextId (handle r st).2 = nextId st + 1 ∧
  ∃ name description photo now,
    r = Register name description photo now ∧ truthy name = true.
Proof.
  destruct r; simpl.
  - pose proof (upload_single_nextId photo now st) as Hn.
    destruct (upload_single photo now st) as [req_file st1]. simpl in Hn.
    destruct (truthy inventory_name) eqn:Hname.
    + rewrite register_truthy_name by done. simpl. rewrite Hn.
      intros [= <-]. eauto 10.
    + by rewrite register_falsy_name.
  - not_created.
  - unfold get_item. case_match; not_created.
  - unfold update_item. case_match; not_created.
  - unfold delete_item. case_match; not_created.
  - unfold get_photo, sendFile. repeat case_match; not_created.
  - destruct (upload_single photo now st) as [req_file st1].
    unfold replace_photo. repeat case_match; not_created.
  - unfold search. case_match; not_created.
Qed.

Lemma handle_nextId_le r st : nextId st ≤ nextId (handle r st).2.
Proof. destruct (handle_nextId r st) as [->|[-> _]]; lia. Qed.

Lemma exec_nextId_le rs st : nextId st ≤ nextId (exec rs st).
Proof.
  revert st. induction rs as [|r rs IH]; intros st; [done|].
  rewrite exec_cons. etrans; [apply (handle_nextId_le r)|apply IH].
Qed.

Lemma assigned_ids_cons res out :
  assigned_ids (res :: out) =
  match assigned_id res with
  | Some n => n :: assigned_ids out
  | None => assigned_ids out
  end.
Proof. done. Qed.

Lemma assigned_ids_bounds rs st :
  Forall (λ n, nextId st ≤ n < nextId (exec rs st))
         (assigned_ids (responses rs st)).
Proof.
  revert st. induction rs as [|r rs IH]; intros st; [by constructor|].
  rewrite responses_cons, exec_cons, assigned_ids_cons.
  pose proof (handle_nextId_le r st) as Hle.
  pose proof (exec_nextId_le rs (handle r st).2) as Hle'.
  specialize (IH (handle r st).2).
  destruct (assigned_id (handle r st).1) as [n|] eqn:Hn.
  - apply handle_assigned in Hn as (-> & Hstep & _). constructor; [lia|].
    eapply Forall_impl; [exact IH|]. simpl. lia.
  - eapply Forall_impl; [exact IH|]. simpl. lia.
Qed.

Lemma assigned_ids_sorted rs st :
  StronglySorted Z.lt (assigned_ids (responses rs st)).
Proof.
  revert st. induction rs as [|r rs IH]; intros st; [by constructor|].
  rewrite responses_cons, assigned_ids_cons.
  destruct (assigned_id (handle r st).1) as [n|] eqn:Hn; [|apply IH].
  apply handle_assigned in Hn as (-> & Hstep & _).
  constructor; [apply IH|].
  eapply Forall_impl; [apply assigned_ids_bounds|]. simpl. lia.
Qed.

Lemma StronglySorted_lt_NoDup (l : list Z) : StronglySorted Z.lt l → NoDup l.
Proof.
  induction 1 as [|x l _ IH Hx]; constructor; [|done].
  intros Hin. rewrite Forall_forall in Hx. specialize (Hx x Hin). lia.
Qed.

(** C1. Whatever requests the service receives from its start (Register and
    Delete among them, in any order), the ids that the responses to
    successful Register requests report are strictly increasing, no id is
    reported twice, the counter never goes down as further requests
    arrive, and a Delete request leaves the counter as it is. *)
Theorem register_ids_strictly_increasing
    (fs0 : gmap string (list Byte.byte)) (rs : list request) :
  nextId (start fs0) = 1 ∧ inventoryItems (start fs0) = ∅ ∧
  StronglySorted Z.lt (assigned_ids (responses rs (start fs0))) ∧
  NoDup (assigned_ids (responses rs (start fs0))) ∧
  (∀ rs', nextId (exec rs (start fs0)) ≤ nextId (exec (rs ++ rs') (start fs0))) ∧
  (∀ id, nextId (exec (rs ++ [DeleteItem id]) (start fs0))
         = nextId (exec rs (start fs0))).
Proof.
  split; [done|]. split; [done|].
  split; [apply assigned_ids_sorted|].
  split; [apply StronglySorted_lt_NoDup, assigned_ids_sorted|].
  split.
  - intros rs'. rewrite exec_app. apply exec_nextId_le.
  - intros id. rewrite exec_app, exec_cons. simpl.
    destruct (handle_nextId (DeleteItem id) (exec rs (start fs0)))
      as [E|[_ E]]; [done|].
    by apply handle_assigned in E as (_ & _ & ? & ? & ? & ? & ? & _).
Qed.

(** ** Register *)

(** C2. A Register request whose name is missing or empty is answered with
    status 400; the counter and the catalog stay as they were; a photo sent
    with the request, which the upload middleware had already written to
    the cache directory, is deleted again, so that no file of that name is
    left, and without a photo the cache directory is untouched. *)
Theorem register_without_name
    (name description : option string) (photo : option upload) (now : Z)
    (st : state) :
  name = None ∨ name = Some "" →
  let res := (handle (Register name description photo now) st).1 in
  let st' := (handle (Register name description photo now) st).2 in
  res = error 400 "Поле inventory_name є обов'язковим." ∧
  nextId st' = nextId st ∧
  inventoryItems st' = inventoryItems st ∧
  match photo with
  | Some file =>
      files st' = delete (filename now file) (files st) ∧
      files st' !! filename now file = None
  | None => files st' = files st
  end ∧
  console st' = console st.
Proof.
  intros Hname.
  assert (truthy name = false) as Hfalsy by (by destruct Hname as [->| ->]).
  cbn zeta. unfold handle. destruct photo as [file|]; cbn [upload_single];
    rewrite register_falsy_name by done; cbn [fst snd]; [|done].
  rewrite unlink_photo_filename. unfold unlink. simpl.
  rewrite lookup_insert_eq. simpl. rewrite delete_insert_eq.
  by rewrite lookup_delete_eq.
Qed.

Lemma register_without_name_witness :
  (@None string = None ∨ @None string = Some "") ∧
  let r := Register None (Some "Cordless drill")
                    (Some (Upload "my drill.jpg" [Byte.x78])) 5 in
  (handle r initial).1 = error 400 "Поле inventory_name є обов'язковим." ∧
  nextId (handle r initial).2 = 1 ∧
  files (handle r initial).2 !! "5-my_drill.jpg" = None.
Proof.
  split; [by left|].
  destruct (register_without_name None (Some "Cordless drill")
              (Some (Upload "my drill.jpg" [Byte.x78])) 5 initial)
    as (Hres & Hn & _ & [_ Hfile] & _); [by left|].
  split; [exact Hres|]. split; [exact Hn|exact Hfile].
Defined.

(** ** Unknown ids *)

Lemma get_item_unknown id st :
  inventoryItems st !! parseInt id = None →
  status (get_item id st).1 = 404 ∧ (get_item id st).2 = st.
Proof. intros H. unfold get_item, findItem. by rewrite H. Qed.

Lemma update_item_unknown id name description st :
  inventoryItems st !! parseInt id = None →
  status (update_item id name description st).1 = 404 ∧
  (update_item id name description st).2 = st.
Proof. intros H. unfold update_item, findItem. by rewrite H. Qed.

Lemma delete_item_unknown id st :
  inventoryItems st !! parseInt id = None →
  status (delete_item id st).1 = 404 ∧ (delete_item id st).2 = st.
Proof. intros H. unfold delete_item, findItem. by rewrite H. Qed.

Lemma get_photo_unknown id st :
  inventoryItems st !! parseInt id = None →
  status (get_photo id st).1 = 404 ∧ (get_photo id st).2 = st.
Proof. intros H. unfold get_photo. by rewrite H. Qed.

Lemma search_unknown id has_photo st :
  inventoryItems st !! parseInt (text id) = None →
  status (search id has_photo st).1 = 404 ∧ (search id has_photo st).2 = st.
Proof. intros H. unfold search. by rewrite H. Qed.

(** The handler of ReplacePhoto changes nothing either, but the state it
    receives is the one the upload middleware has left. *)
Lemma replace_photo_unknown id photo now st :
  inventoryItems st !! parseInt id = None →
  status (handle (ReplacePhoto id photo now) st).1 = 404 ∧
  (handle (ReplacePhoto id photo now) st).2 = (upload_single photo now st).2.
Proof.
  intros H. simpl.
  pose proof (upload_single_inventoryItems photo now st) as Hitems.
  destruct (upload_single photo now st) as [req_file st1]. simpl in *.
  unfold replace_photo, findItem. by rewrite Hitems, H.
Qed.

(** C3. With an id that is in no catalog entry, ReplacePhoto is answered
    with 404 and leaves the catalog and the counter alone, but the photo
    sent with the request stays in the cache directory: on the empty
    catalog, [PUT /inventory/7/photo] with a file [a.jpg] named at time 5
    leaves the file [5-a.jpg] behind.  (Get, Update, Delete and SearchById
    change nothing, see the lemmas above.) *)
Theorem replace_photo_unknown_id_leaves_file :
  let st := initial in
  let r := ReplacePhoto "7" (Some (Upload "a.jpg" [Byte.x78])) 5 in
  inventoryItems st !! parseInt "7" = None ∧
  (handle r st).1 = error 404 "Річ з ID 7 не знайдена" ∧
  inventoryItems (handle r st).2 = inventoryItems st ∧
  nextId (handle r st).2 = nextId st ∧
  files st !! "5-a.jpg" = None ∧
  files (handle r st).2 !! "5-a.jpg" = Some [Byte.x78].
Proof. repeat split; reflexivity. Qed.

(** ** Ids that are not numbers *)

(** In a reachable state no catalog entry sits under the key [NaN]. *)
Lemma reachable_NaN st : reachable st → inventoryItems st !! NaN = None.
Proof.
  intros [_ Hitems]%reachable_ok.
  destruct (inventoryItems st !! NaN) as [it|] eqn:Hit; [|done].
  by destruct (Hitems _ _ Hit) as [? _].
Qed.

Lemma parseInt_undefined : parseInt (text None) = NaN.
Proof. reflexivity. Qed.

(** Five of the six operations answer an id that does not parse with 404
    and change nothing. *)
Lemma NaN_id_not_found st id :
  reachable st → parseInt id = NaN →
  (status (handle (GetItem id) st).1 = 404 ∧ (handle (GetItem id) st).2 = st) ∧
  (∀ n d, status (handle (UpdateItem id n d) st).1 = 404 ∧
          (handle (UpdateItem id n d) st).2 = st) ∧
  (status (handle (DeleteItem id) st).1 = 404 ∧
   (handle (DeleteItem id) st).2 = st) ∧
  (status (handle (GetPhoto id) st).1 = 404 ∧ (handle (GetPhoto id) st).2 = st) ∧
  (∀ p, status (handle (Search (Some id) p) st).1 = 404 ∧
        (handle (Search (Some id) p) st).2 = st) ∧
  (∀ photo now,
     status (handle (ReplacePhoto id photo now) st).1 = 404 ∧
     (handle (ReplacePhoto id photo now) st).2 = (upload_single photo now st).2).
Proof.
  intros Hst%reachable_NaN Hid.
  assert (inventoryItems st !! parseInt id = None) as Hnone by (by rewrite Hid).
  split; [by apply get_item_unknown|].
  split; [intros; by apply update_item_unknown|].
  split; [by apply delete_item_unknown|].
  split; [by apply get_photo_unknown|].
  split; [intros; by apply search_unknown|].
  intros; by apply replace_photo_unknown.
Qed.

(** C10. With an id that does not parse as a number, ReplacePhoto is
    answered with 404 and the catalog stays as it was, but the photo sent
    with the request stays in the cache directory: after one registration,
    [PUT /inventory/abc/photo] with a file [a.jpg] named at time 5 leaves
    the file [5-a.jpg] behind.  (The other five operations answer 404 and
    change nothing, see [NaN_id_not_found].) *)
Theorem replace_photo_NaN_id_leaves_file :
  let st := exec [Register (Some "Drill") None None 1] initial in
  let r := ReplacePhoto "abc" (Some (Upload "a.jpg" [Byte.x78])) 5 in
  parseInt "abc" = NaN ∧
  (handle r st).1 = error 404 "Річ з ID NaN не знайдена" ∧
  inventoryItems (handle r st).2 = inventoryItems st ∧
  files st !! "5-a.jpg" = None ∧
  files (handle r st).2 !! "5-a.jpg" = Some [Byte.x78].
Proof. repeat split; reflexivity. Qed.

(** ** Register with a name *)

Lemma prepareItemResponse_keys it :
  keys (prepareItemResponse it)
  = ["ID"; "InventoryName"; "Description"; "PhotoLink"].
Proof. done. Qed.

Lemma prepareItemResponse_PhotoLink it :
  field "PhotoLink" (prepareItemResponse it)
  = Some (if truthy (Photo it) then JStr (photo_path (ID it)) else JNull).
Proof. done. Qed.

(** C4. A Register request with a non-empty name is answered with status
    201 and the view of the new item.  The item is stored under the id the
    counter held, with the name sent, the description sent or the empty
    string, and the name of the uploaded file when a photo was sent, whose
    bytes are then in the cache directory; the counter moves on by one.  The
    view has the four fields ID, InventoryName, Description and PhotoLink;
    PhotoLink is null without a photo and otherwise the path
    /inventory/{id}/photo, which is never the stored file name. *)
Theorem register_with_name
    (name : string) (description : option string) (photo : option upload)
    (now : Z) (st : state) :
  name ≠ "" →
  let res := (handle (Register (Some name) description photo now) st).1 in
  let st' := (handle (Register (Some name) description photo now) st).2 in
  let id := nextId st in
  let new := {| ID := id;
                InventoryName := name;
                Description := default "" description;
                Photo := filename now <$> photo |} in
  res = Response 201 (Json (JObj
          [("message", JStr "Інвентар успішно зареєстровано");
           ("item", prepareItemResponse new)])) ∧
  assigned_id res = Some id ∧
  inventoryItems st' = <[Int id := new]> (inventoryItems st) ∧
  inventoryItems st' !! Int id = Some new ∧
  nextId st' = id + 1 ∧
  keys (prepareItemResponse new)
    = ["ID"; "InventoryName"; "Description"; "PhotoLink"] ∧
  field "ID" (prepareItemResponse new) = Some (JNum id) ∧
  field "InventoryName" (prepareItemResponse new) = Some (JStr name) ∧
  field "Description" (prepareItemResponse new)
    = Some (JStr (default "" description)) ∧
  match photo with
  | None =>
      field "PhotoLink" (prepareItemResponse new) = Some JNull ∧
      files st' = files st
  | Some file =>
      field "PhotoLink" (prepareItemResponse new)
        = Some (JStr ("/inventory/" +:+ pretty id +:+ "/photo")) ∧
      "/inventory/" +:+ pretty id +:+ "/photo" ≠ filename now file ∧
      files st' !! filename now file = Some (data file)
  end.
Proof.
  intros Hname.
  assert (truthy (Some name) = true) as Htruthy
    by (by apply bool_decide_eq_true).
  assert ((if truthy description then default "" description else "")
          = default "" description) as Hdescr.
  { destruct description as [d|]; [|done]. simpl. by case_bool_decide. }
  cbn zeta. unfold handle.
  pose proof (upload_single_name photo now st) as Hfile.
  pose proof (upload_single_nextId photo now st) as Hn.
  pose proof (upload_single_inventoryItems photo now st) as Hitems.
  destruct (upload_single photo now st) as [req_file st1] eqn:Hup.
  cbn [fst snd] in *. subst req_file.
  rewrite register_truthy_name by done. cbn [fst snd default].
  rewrite Hdescr, Hn, Hitems. cbn [inventoryItems nextId files].
  split; [done|]. split; [done|]. split; [done|].
  split; [apply lookup_insert_eq|]. split; [done|].
  split; [done|]. split; [done|]. split; [done|]. split; [done|].
  destruct photo as [file|]; simpl in Hup; injection Hup as <-.
  - rewrite prepareItemResponse_PhotoLink. cbn [Photo ID fmap option_fmap option_map].
    rewrite filename_truthy. split; [reflexivity|].
    split; [apply not_eq_sym, (filename_not_photo_path now file (nextId st))|].
    simpl. apply lookup_insert_eq.
  - done.
Qed.

Lemma register_with_name_witness :
  "Drill" ≠ "" ∧
  let r := Register (Some "Drill") None (Some (Upload "my drill.jpg" [Byte.x78])) 5 in
  (handle r initial).1
    = Response 201 (Json (JObj
        [("message", JStr "Інвентар успішно зареєстровано");
         ("item", JObj [("ID", JNum 1); ("InventoryName", JStr "Drill");
                        ("Description", JStr "");
                        ("PhotoLink", JStr "/inventory/1/photo")])])) ∧
  assigned_id (handle r initial).1 = Some 1 ∧
  inventoryItems (handle r initial).2 !! Int 1
    = Some (Item 1 "Drill" "" (Some "5-my_drill.jpg")) ∧
  nextId (handle r initial).2 = 2.
Proof.
  split; [done|].
  destruct (register_with_name "Drill" None
              (Some (Upload "my drill.jpg" [Byte.x78])) 5 initial)
    as (Hres & Hid & _ & Hitem & Hn & _); [done|].
  split; [exact Hres|]. split; [exact Hid|]. split; [exact Hitem|exact Hn].
Defined.

(** ** Update *)

(** C5. Update of an existing item is answered with status 200 and the view
    of the item after the change.  The name and the description take the
    values the request supplies and keep their old values where it supplies
    none; the ID and the photo reference keep theirs; every other catalog
    entry, the counter and the cache directory stay as they were.  A name
    that is the empty string is stored like any other. *)
Theorem update_changes_supplied_fields
    (id : string) (name description : option string) (st : state) (it : item) :
  inventoryItems st !! parseInt id = Some it →
  let res := (handle (UpdateItem id name description) st).1 in
  let st' := (handle (UpdateItem id name description) st).2 in
  let it' := {| ID := ID it;
                InventoryName := default (InventoryName it) name;
                Description := default (Description it) description;
                Photo := Photo it |} in
  res = Response 200 (Json (prepareItemResponse it')) ∧
  inventoryItems st' !! parseInt id = Some it' ∧
  (name = None → InventoryName it' = InventoryName it) ∧
  (description = None → Description it' = Description it) ∧
  (name = Some "" → InventoryName it' = "") ∧
  (∀ k, k ≠ parseInt id → inventoryItems st' !! k = inventoryItems st !! k) ∧
  nextId st' = nextId st ∧
  files st' = files st ∧
  console st' = console st.
Proof.
  intros Hit. cbn zeta. unfold handle, update_item.
  apply findItem_inr in Hit as ->.
  destruct it as [i n d p], name as [n'|], description as [d'|]; simpl;
    (split; [done|]); (split; [apply lookup_insert_eq|]);
    (split; [naive_solver|]); (split; [naive_solver|]);
    (split; [naive_solver|]); (split; [|done]);
    intros k Hk; by apply lookup_insert_ne.
Qed.

Lemma update_changes_supplied_fields_witness :
  let st := exec [Register (Some "Drill") (Some "Cordless drill") None 5] initial in
  inventoryItems st !! parseInt "1" = Some (Item 1 "Drill" "Cordless drill" None) ∧
  (handle (UpdateItem "1" (Some "") None) st).1
    = Response 200 (Json (JObj [("ID", JNum 1); ("InventoryName", JStr "");
                                ("Description", JStr "Cordless drill");
                                ("PhotoLink", JNull)])).
Proof.
  split; [reflexivity|].
  exact (proj1 (update_changes_supplied_fields "1" (Some "") None
                  (exec [Register (Some "Drill") (Some "Cordless drill") None 5] initial)
                  (Item 1 "Drill" "Cordless drill" None) eq_refl)).
Defined.

(** ** Search *)

Lemma reachable_Photo st k it :
  reachable st → inventoryItems st !! k = Some it →
  truthy (Photo it) = bool_decide (is_Some (Photo it)).
Proof.
  intros [_ Hitems]%reachable_ok Hit.
  destruct (Hitems _ _ Hit) as (_ & _ & Hphoto).
  destruct (Photo it) as [f|]; unfold truthy.
  - apply bool_decide_ext. split; [by eauto|congruence].
  - symmetry. apply bool_decide_eq_false. by intros [? ?].
Qed.

(** C6. SearchById of an existing item is answered with status 200 and a
    view that always has the item's ID, name and description, and changes
    nothing.  Without the photo flag the view has no PhotoLink field, also
    when the item has a photo; with the flag it has the field, holding the
    photo path, exactly when the item has a photo; where the field is left
    out the view has three fields and no null in place of the fourth. *)
Theorem search_view
    (id has_photo : option string) (st : state) (it : item) :
  reachable st →
  inventoryItems st !! parseInt (text id) = Some it →
  ∃ v,
    handle (Search id has_photo) st = (Response 200 (Json v), st) ∧
    field "ID" v = Some (JNum (ID it)) ∧
    field "InventoryName" v = Some (JStr (InventoryName it)) ∧
    field "Description" v = Some (JStr (Description it)) ∧
    (has_photo ≠ Some "on" →
       keys v = ["ID"; "InventoryName"; "Description"] ∧
       field "PhotoLink" v = None) ∧
    (has_photo = Some "on" → Photo it = None →
       keys v = ["ID"; "InventoryName"; "Description"] ∧
       field "PhotoLink" v = None) ∧
    (has_photo = Some "on" → is_Some (Photo it) →
       keys v = ["ID"; "InventoryName"; "Description"; "PhotoLink"] ∧
       field "PhotoLink" v = Some (JStr (photo_path (ID it)))).
Proof.
  intros Hst Hit. unfold handle, search. rewrite Hit.
  rewrite (reachable_Photo st _ it Hst Hit).
  eexists. split; [reflexivity|].
  destruct (decide (has_photo = Some "on")) as [Hon|Hoff].
  - rewrite (bool_decide_eq_true_2 _ Hon).
    destruct (Photo it) as [f|] eqn:Hphoto.
    + rewrite (bool_decide_eq_true_2 (is_Some (Some f))) by done. simpl.
      repeat split; done.
    + rewrite (bool_decide_eq_false_2 (is_Some None)) by (by intros [? ?]).
      simpl. repeat split; try done; by intros _ [? ?].
  - rewrite (bool_decide_eq_false_2 _ Hoff). simpl.
    repeat split; done.
Qed.

Lemma search_view_witness :
  let st := exec [Register (Some "Drill") None
                    (Some (Upload "a.jpg" [Byte.x78])) 5] initial in
  reachable st ∧
  inventoryItems st !! parseInt (text (Some "1"))
    = Some (Item 1 "Drill" "" (Some "5-a.jpg")) ∧
  ∃ v, handle (Search (Some "1") None) st = (Response 200 (Json v), st) ∧
       keys v = ["ID"; "InventoryName"; "Description"].
Proof.
  split; [by apply reachable_exec, reachable_start|].
  split; [reflexivity|].
  destruct (search_view (Some "1") None
              (exec [Register (Some "Drill") None
                       (Some (Upload "a.jpg" [Byte.x78])) 5] initial)
              (Item 1 "Drill" "" (Some "5-a.jpg")))
    as (v & Hres & _ & _ & _ & Hoff & _);
    [by apply reachable_exec, reachable_start | reflexivity |].
  exists v. split; [exact Hres|]. by apply Hoff.
Defined.

(** ** Delete *)

Lemma elem_of_Object_values (m : gmap number item) (it : item) :
  it ∈ Object_values m ↔ ∃ k, m !! k = Some it.
Proof.
  unfold Object_values. rewrite list_elem_of_fmap. split.
  - intros ([k it'] & -> & Hin). exists k.
    rewrite merge_sort_Permutation in Hin. by apply elem_of_map_to_list.
  - intros [k Hk]. exists (k, it). split; [done|].
    rewrite merge_sort_Permutation. by apply elem_of_map_to_list.
Qed.

Lemma unlink_photo_files_Some f st :
  f ≠ "" → files (unlink_photo (Some f) st) = delete f (files st).
Proof.
  intros Hf. unfold unlink_photo, truthy.
  rewrite bool_decide_eq_true_2 by done. apply unlink_files.
Qed.

Lemma unlink_photo_console_missing f st :
  f ≠ "" → files st !! f = None →
  console (unlink_photo (Some f) st) = console st ++ [UnlinkError f].
Proof.
  intros Hf Hnone. unfold unlink_photo, truthy, unlink.
  rewrite bool_decide_eq_true_2 by done. by rewrite Hnone.
Qed.

Lemma unlink_photo_console_present f st :
  is_Some (files st !! f) → console (unlink_photo (Some f) st) = console st.
Proof.
  intros [bytes Hf]. unfold unlink_photo, unlink. rewrite Hf. by case_match.
Qed.

(** C7. Delete of an existing item is answered with status 200.  Afterwards
    the id is in no catalog entry: no view that List returns has it, and
    GetPhoto and Get on it are answered with 404.  The file of the item's
    photo, when it had one, is no longer in the cache directory; when the
    file was already missing, the failure is logged and the request is
    answered with 200 all the same.  The counter stays as it was, and no
    later Register request is given the id. *)
Theorem delete_removes_item (id : string) (st : state) (it : item) :
  reachable st →
  inventoryItems st !! parseInt id = Some it →
  let res := (handle (DeleteItem id) st).1 in
  let st' := (handle (DeleteItem id) st).2 in
  status res = 200 ∧
  inventoryItems st' = delete (parseInt id) (inventoryItems st) ∧
  inventoryItems st' !! parseInt id = None ∧
  (∃ l, (handle ListItems st').1 = Response 200 (Json (JArr l)) ∧
        ∀ v, v ∈ l → field "ID" v ≠ Some (JNum (ID it))) ∧
  status (handle (GetPhoto id) st').1 = 404 ∧
  status (handle (GetItem id) st').1 = 404 ∧
  (∀ f, Photo it = Some f →
        files st' = delete f (files st) ∧ files st' !! f = None) ∧
  (Photo it = None → files st' = files st) ∧
  (∀ f, Photo it = Some f → files st !! f = None →
        console st' = console st ++ [UnlinkError f]) ∧
  (∀ f, Photo it = Some f → is_Some (files st !! f) →
        console st' = console st) ∧
  nextId st' = nextId st ∧
  (∀ rs, ID it ∉ assigned_ids (responses rs st')).
Proof.
  intros Hst Hit. cbn zeta.
  pose proof (reachable_handle (DeleteItem id) st Hst) as Hst'.
  destruct (reachable_ok st Hst) as [_ Hitems].
  destruct (Hitems _ _ Hit) as (Hk & Hid & Hphoto).
  assert (handle (DeleteItem id) st =
          (Response 200 (Json (JObj
             [("message", JStr ("Річ з ID " +:+ pretty (ID it) +:+ " успішно видалена"))])),
           set_inventoryItems
             (delete (parseInt id) (inventoryItems (unlink_photo (Photo it) st)))
             (unlink_photo (Photo it) st))) as Heq.
  { unfold handle, delete_item. apply findItem_inr in Hit as ->. by rewrite Hk. }
  rewrite Heq in Hst' |- *. cbn [fst snd] in Hst' |- *. clear Heq.
  set (st' := set_inventoryItems _ _) in Hst' |- *.
  assert (inventoryItems st' = delete (parseInt id) (inventoryItems st)) as Hdel.
  { unfold st'. simpl. by rewrite unlink_photo_inventoryItems. }
  assert (inventoryItems st' !! parseInt id = None) as Hgone.
  { rewrite Hdel. apply lookup_delete_eq. }
  assert (nextId st' = nextId st) as Hnext.
  { unfold st'. simpl. apply unlink_photo_nextId. }
  split; [done|]. split; [done|]. split; [done|].
  split.
  { eexists. split; [reflexivity|]. intros v Hv.
    apply list_elem_of_fmap in Hv as (it' & -> & Hin).
    apply elem_of_Object_values in Hin as [k Hk'].
    destruct (reachable_ok st' Hst') as [_ Hitems'].
    destruct (Hitems' _ _ Hk') as (-> & _ & _).
    simpl. intros [= E]. rewrite E, <-Hk in Hk'. congruence. }
  split; [by apply get_photo_unknown|].
  split; [by apply get_item_unknown|].
  assert (files st' = files (unlink_photo (Photo it) st)) as -> by done.
  assert (console st' = console (unlink_photo (Photo it) st)) as -> by done.
  assert (∀ f, Photo it = Some f → f ≠ "") as Hname by congruence.
  split.
  { intros f Hf. rewrite Hf, unlink_photo_files_Some by eauto.
    split; [done|apply lookup_delete_eq]. }
  split; [by intros ->|].
  split.
  { intros f Hf Hnone. rewrite Hf.
    apply unlink_photo_console_missing; eauto. }
  split; [intros f ->; apply unlink_photo_console_present|].
  split; [done|].
  intros rs Hin.
  pose proof (assigned_ids_bounds rs st') as Hbounds.
  rewrite Forall_forall in Hbounds. apply Hbounds in Hin. lia.
Qed.

Lemma delete_removes_item_witness :
  let st := exec [Register (Some "Drill") None
                    (Some (Upload "a.jpg" [Byte.x78])) 5] initial in
  reachable st ∧
  inventoryItems st !! parseInt "1" = Some (Item 1 "Drill" "" (Some "5-a.jpg")) ∧
  status (handle (DeleteItem "1") st).1 = 200 ∧
  status (handle (GetPhoto "1") (handle (DeleteItem "1") st).2).1 = 404 ∧
  files (handle (DeleteItem "1") st).2 !! "5-a.jpg" = None.
Proof.
  split; [by apply reachable_exec, reachable_start|].
  split; [reflexivity|].
  destruct (delete_removes_item "1"
              (exec [Register (Some "Drill") None
                       (Some (Upload "a.jpg" [Byte.x78])) 5] initial)
              (Item 1 "Drill" "" (Some "5-a.jpg")))
    as (Hres & _ & _ & _ & Hphoto & _ & Hfile & _);
    [by apply reachable_exec, reachable_start | reflexivity |].
  split; [exact Hres|]. split; [exact Hphoto|].
  exact (proj2 (Hfile "5-a.jpg" eq_refl)).
Defined.

(** ** ReplacePhoto *)

(** C8, as stated, fails when the new file gets the name of the file it
    replaces: an item registered with a photo [a.jpg] named at time 5 has
    the file [5-a.jpg]; ReplacePhoto with a file [a.jpg] named at time 5
    writes the new bytes to [5-a.jpg], then deletes [5-a.jpg] as the old
    photo, and answers 200.  The new bytes are not stored, and GetPhoto is
    answered with 500. *)
Lemma replace_photo_same_file_name :
  let st := exec [Register (Some "Drill") None
                    (Some (Upload "a.jpg" [Byte.x01])) 5] initial in
  let r := ReplacePhoto "1" (Some (Upload "a.jpg" [Byte.x02])) 5 in
  inventoryItems st !! parseInt "1" = Some (Item 1 "Drill" "" (Some "5-a.jpg")) ∧
  status (handle r st).1 = 200 ∧
  inventoryItems (handle r st).2 !! parseInt "1"
    = Some (Item 1 "Drill" "" (Some "5-a.jpg")) ∧
  files (handle r st).2 !! "5-a.jpg" = None ∧
  (handle (GetPhoto "1") (handle r st).2).1 = error 500 "Помилка сервера" ∧
  (handle (GetPhoto "1") (handle r st).2).1
    ≠ Response 200 (File "image/jpeg" [Byte.x02]).
Proof. repeat split; try reflexivity. discriminate. Qed.

Lemma get_photo_found id st it f bytes :
  inventoryItems st !! parseInt id = Some it →
  Photo it = Some f → f ≠ "" → files st !! f = Some bytes →
  get_photo id st = (Response 200 (File "image/jpeg" bytes), st).
Proof.
  intros Hit Hf Hne Hbytes. unfold get_photo, sendFile.
  rewrite Hit, Hf, Hbytes. unfold truthy. by rewrite bool_decide_eq_true_2.
Qed.

(** C8, amended.  ReplacePhoto of an existing item without a file is
    answered with 400 and changes nothing.  With a file it is answered with
    200 and the view of the item, whose photo reference is now the name of
    the new file; the other entries and the counter stay as they were; the
    file the item referred to before is not in the cache directory
    afterwards, and when it was already missing the failure is logged and
    the request still succeeds.  When the new file's name differs from the
    name the item referred to before, the new bytes are in the cache
    directory under the new name and a GetPhoto that follows returns
    them. *)
Theorem replace_photo_outcomes
    (id : string) (photo : option upload) (now : Z) (st : state) (it : item) :
  reachable st →
  inventoryItems st !! parseInt id = Some it →
  let res := (handle (ReplacePhoto id photo now) st).1 in
  let st' := (handle (ReplacePhoto id photo now) st).2 in
  match photo with
  | None => res = error 400 "Файл фото не надано" ∧ st' = st
  | Some file =>
      let f := filename now file in
      let it' := Item (ID it) (InventoryName it) (Description it) (Some f) in
      res = Response 200 (Json (JObj
              [("message", JStr ("Фото для ID " +:+ pretty (ID it) +:+ " успішно оновлено"));
               ("item", prepareItemResponse it')])) ∧
      field "PhotoLink" (prepareItemResponse it') = Some (JStr (photo_path (ID it))) ∧
      inventoryItems st' !! parseInt id = Some it' ∧
      (∀ k, k ≠ parseInt id → inventoryItems st' !! k = inventoryItems st !! k) ∧
      nextId st' = nextId st ∧
      (∀ old, Photo it = Some old → files st' !! old = None) ∧
      (∀ old, Photo it = Some old → old ≠ f → files st !! old = None →
              console st' = console st ++ [UnlinkError old]) ∧
      (Photo it ≠ Some f →
         files st' !! f = Some (data file) ∧
         (handle (GetPhoto id) st').1
           = Response 200 (File "image/jpeg" (data file)))
  end.
Proof.
  intros Hst Hit. cbn zeta.
  destruct (reachable_ok st Hst) as [_ Hitems].
  destruct (Hitems _ _ Hit) as (Hk & Hid & Hphoto).
  assert (∀ old, Photo it = Some old → old ≠ "") as Hname by congruence.
  destruct photo as [file|].
  2: { unfold handle, upload_single, replace_photo.
       by apply findItem_inr in Hit as ->. }
  set (f := filename now file).
  set (st1 := set_files (<[f := data file]> (files st)) st).
  set (st2 := unlink_photo (Photo it) st1).
  set (it' := Item (ID it) (InventoryName it) (Description it) (Some f)).
  assert (handle (ReplacePhoto id (Some file) now) st =
          (Response 200 (Json (JObj
             [("message", JStr ("Фото для ID " +:+ pretty (ID it) +:+ " успішно оновлено"));
              ("item", prepareItemResponse it')])),
           set_inventoryItems (<[parseInt id := it']> (inventoryItems st2)) st2))
    as ->.
  { unfold handle, upload_single, replace_photo. fold f st1.
    assert (findItem (parseInt id) st1 = inr it) as -> by (by apply findItem_inr).
    done. }
  cbn [fst snd].
  assert (inventoryItems st2 = inventoryItems st) as Hitems2
    by (unfold st2; by rewrite unlink_photo_inventoryItems).
  assert (f ≠ "") as Hf by apply filename_nonempty.
  split; [done|].
  split.
  { rewrite prepareItemResponse_PhotoLink. simpl. unfold truthy.
    by rewrite bool_decide_eq_true_2. }
  split; [simpl; apply lookup_insert_eq|].
  split; [intros k Hne; simpl; rewrite Hitems2; by apply lookup_insert_ne|].
  split; [simpl; unfold st2; by rewrite unlink_photo_nextId|].
  split.
  { intros old Hold. simpl. unfold st2. rewrite Hold.
    rewrite unlink_photo_files_Some by eauto. apply lookup_delete_eq. }
  split.
  { intros old Hold Hne Hnone. simpl. unfold st2. rewrite Hold.
    rewrite unlink_photo_console_missing; [done|by eauto|].
    simpl. by rewrite lookup_insert_ne. }
  intros Hdiff.
  assert (files st2 !! f = Some (data file)) as Hnew.
  { unfold st2. destruct (Photo it) as [old|] eqn:Hold.
    - rewrite unlink_photo_files_Some by eauto.
      rewrite lookup_delete_ne by congruence. apply lookup_insert_eq.
    - simpl. apply lookup_insert_eq. }
  split; [done|].
  unfold handle.
  rewrite (get_photo_found id _ it' f (data file)); [done| |done|done|done].
  simpl. apply lookup_insert_eq.
Qed.

Lemma replace_photo_outcomes_witness :
  let st := exec [Register (Some "Drill") None
                    (Some (Upload "a.jpg" [Byte.x01])) 5] initial in
  let r := ReplacePhoto "1" (Some (Upload "b.jpg" [Byte.x02])) 6 in
  reachable st ∧
  inventoryItems st !! parseInt "1" = Some (Item 1 "Drill" "" (Some "5-a.jpg")) ∧
  Some "5-a.jpg" ≠ Some (filename 6 (Upload "b.jpg" [Byte.x02])) ∧
  files (handle r st).2 !! "5-a.jpg" = None ∧
  (handle (GetPhoto "1") (handle r st).2).1
    = Response 200 (File "image/jpeg" [Byte.x02]).
Proof.
  split; [by apply reachable_exec, reachable_start|].
  split; [reflexivity|].
  split; [discriminate|].
  destruct (replace_photo_outcomes "1" (Some (Upload "b.jpg" [Byte.x02])) 6
              (exec [Register (Some "Drill") None
                       (Some (Upload "a.jpg" [Byte.x01])) 5] initial)
              (Item 1 "Drill" "" (Some "5-a.jpg")))
    as (_ & _ & _ & _ & _ & Hold & _ & Hnew);
    [by apply reachable_exec, reachable_start | reflexivity |].
  split; [by apply Hold|]. apply Hnew. discriminate.
Defined.

(** ** GetPhoto *)

(** C9. GetPhoto is answered with 404 exactly when no catalog entry has the
    id or the entry has no photo reference.  When the entry has a reference
    and the file is in the cache directory, the answer is status 200 with
    the bytes of the file and the content type image/jpeg, whatever the
    bytes are; an answer with status 200 arises in no other way.  The
    catalog, the counter and the cache directory are the same after the
    request as before it. *)
Theorem get_photo_outcomes (id : string) (st : state) :
  reachable st →
  let res := (handle (GetPhoto id) st).1 in
  let st' := (handle (GetPhoto id) st).2 in
  (status res = 404 ↔
     inventoryItems st !! parseInt id = None ∨
     ∃ it, inventoryItems st !! parseInt id = Some it ∧ Photo it = None) ∧
  (∀ it f bytes,
     inventoryItems st !! parseInt id = Some it → Photo it = Some f →
     files st !! f = Some bytes →
     res = Response 200 (File "image/jpeg" bytes)) ∧
  (status res = 200 →
     ∃ it f bytes,
       inventoryItems st !! parseInt id = Some it ∧ Photo it = Some f ∧
       files st !! f = Some bytes ∧
       res = Response 200 (File "image/jpeg" bytes)) ∧
  inventoryItems st' = inventoryItems st ∧
  nextId st' = nextId st ∧
  files st' = files st.
Proof.
  intros Hst. cbn zeta. destruct (reachable_ok st Hst) as [_ Hitems].
  unfold handle.
  destruct (inventoryItems st !! parseInt id) as [it|] eqn:Hit.
  2: { destruct (get_photo_unknown id st Hit) as [H404 Hsame].
       rewrite Hsame, H404. repeat split; try done; auto. }
  destruct (Hitems _ _ Hit) as (_ & _ & Hphoto).
  destruct (Photo it) as [f|] eqn:Hf.
  2: { unfold get_photo. rewrite Hit, Hf. simpl.
       repeat split; try done; eauto.
       intros ? ? ? [= <-] ?; congruence. }
  assert (f ≠ "") as Hne by congruence.
  destruct (files st !! f) as [bytes|] eqn:Hbytes.
  - rewrite (get_photo_found id st it f bytes) by done. simpl.
    split; [split; [done|]|].
    + intros [?|(it' & [= <-] & ?)]; congruence.
    + split; [intros ? ? ? [= <-] ? ?; congruence|].
      split; [|done]. intros _. by exists it, f, bytes.
  - unfold get_photo, sendFile, truthy. rewrite Hit, Hf, Hbytes.
    rewrite bool_decide_eq_true_2 by done. simpl.
    split; [split; [done|]|].
    + intros [?|(it' & [= <-] & ?)]; congruence.
    + split; [intros ? ? ? [= <-] ? ?; congruence|done].
Qed.

Lemma get_photo_outcomes_witness :
  let st := exec [Register (Some "Drill") None
                    (Some (Upload "a.png" [Byte.x89; Byte.x50])) 5] initial in
  reachable st ∧
  (handle (GetPhoto "1") st).1
    = Response 200 (File "image/jpeg" [Byte.x89; Byte.x50]).
Proof.
  split; [by apply reachable_exec, reachable_start|].
  destruct (get_photo_outcomes "1"
              (exec [Register (Some "Drill") None
                       (Some (Upload "a.png" [Byte.x89; Byte.x50])) 5] initial))
    as (_ & Hfound & _); [by apply reachable_exec, reachable_start|].
  apply (Hfound (Item 1 "Drill" "" (Some "5-a.png")) "5-a.png"); reflexivity.
Defined.


(** * Further properties *)

(** ** [parseInt] reads decimal renderings back *)

Lemma digit_pretty_N_char (d : N) :
  (d < 10)%N → digit 10 (pretty_N_char d) = Some (Z.of_N d).
Proof.
  intros Hd.
  assert (d = 0 ∨ d = 1 ∨ d = 2 ∨ d = 3 ∨ d = 4 ∨ d = 5 ∨ d = 6 ∨ d = 7
          ∨ d = 8 ∨ d = 9)%N as Hcases by lia.
  repeat (destruct Hcases as [->|Hcases]; [reflexivity|]). by subst.
Qed.

Lemma pretty_N_go_app (x : N) (s rest : string) :
  pretty_N_go x s +:+ rest = pretty_N_go x (s +:+ rest).
Proof.
  revert s. induction (N.lt_wf_0 x) as [x _ IH]; intros s.
  destruct (decide (x = 0)%N) as [->|Hx]; [by rewrite !pretty_N_go_0|].
  rewrite (pretty_N_go_step x s), (pretty_N_go_step x (s +:+ rest)) by lia.
  rewrite IH by (apply N.div_lt; lia). reflexivity.
Qed.

Lemma digits_pretty_N_go (x : N) (s : string) :
  (0 < x)%N →
  digits 10 (pretty_N_go x s) None = digits 10 s (Some (Z.of_N x)).
Proof.
  revert s. induction (N.lt_wf_0 x) as [x _ IH]; intros s Hx.
  rewrite pretty_N_go_step by done.
  pose proof (N.mod_lt x 10) as Hmod.
  pose proof (N.div_mod x 10) as Hdiv.
  destruct (decide (x `div` 10 = 0)%N) as [Hq|Hq].
  - rewrite Hq, pretty_N_go_0. simpl.
    rewrite digit_pretty_N_char by lia. simpl. do 2 f_equal. lia.
  - rewrite IH; [|apply N.div_lt; lia|lia]. simpl.
    rewrite digit_pretty_N_char by lia. simpl. do 2 f_equal. lia.
Qed.

(** The rendering of a positive number starts with a decimal digit, and
    what follows is the rest or starts with a decimal digit again. *)
Lemma pretty_N_go_shape (x : N) (s : string) :
  (0 < x)%N →
  ∃ d t, (d < 10)%N ∧ pretty_N_go x s = String (pretty_N_char d) t ∧
         (t = s ∨ ∃ d' t', (d' < 10)%N ∧ t = String (pretty_N_char d') t').
Proof.
  revert s. induction (N.lt_wf_0 x) as [x _ IH]; intros s Hx.
  rewrite pretty_N_go_step by done.
  pose proof (N.mod_lt x 10) as Hmod.
  destruct (decide (x `div` 10 = 0)%N) as [Hq|Hq].
  - rewrite Hq, pretty_N_go_0. exists (x `mod` 10)%N, s.
    split; [lia|]. split; [done|by left].
  - destruct (IH (x `div` 10)%N) with (s := String (pretty_N_char (x `mod` 10)) s)
      as (d & t & Hd & -> & Ht); [apply N.div_lt; lia|by apply N.neq_0_lt_0|].
    exists d, t. split; [done|]. split; [done|]. right.
    destruct Ht as [->|Ht]; [|done].
    exists (x `mod` 10)%N, s. split; [lia|done].
Qed.

Lemma ws2_ascii c1 c2 : (code c1 < 128)%N → ws2 c1 c2 = false.
Proof.
  intros Hc. unfold ws2.
  by rewrite (proj2 (N.eqb_neq (code c1) 194)) by lia.
Qed.

Lemma ws3_ascii c1 c2 c3 : (code c1 < 128)%N → ws3 c1 c2 c3 = false.
Proof.
  intros Hc. unfold ws3.
  rewrite (proj2 (N.eqb_neq (code c1) 225)), (proj2 (N.eqb_neq (code c1) 226)),
    (proj2 (N.eqb_neq (code c1) 227)), (proj2 (N.eqb_neq (code c1) 239)) by lia.
  done.
Qed.

(** A string that starts with an ASCII character other than white space
    starts with no character of the class [\s]. *)
Lemma ws_head_ascii c t :
  (code c < 128)%N → ws1 c = false → ws_head (String c t) = false.
Proof.
  intros Hc Hws. simpl. rewrite Hws.
  destruct t as [|c2 [|c3 t]]; simpl;
    by rewrite ?ws2_ascii, ?ws3_ascii by done.
Qed.

Lemma skip_ws_ascii c t :
  (code c < 128)%N → ws1 c = false → skip_ws (String c t) = String c t.
Proof.
  intros Hc Hws. simpl. rewrite Hws.
  destruct t as [|c2 [|c3 t]]; simpl;
    by rewrite ?ws2_ascii, ?ws3_ascii by done.
Qed.

Lemma digits_stops rest acc : stops rest → digits 10 rest acc = acc.
Proof. destruct rest as [|c t]; [done|]. intros (Hc & _). simpl. by rewrite Hc. Qed.

(** Without the prefix [0x] the digits are read in radix 10. *)
Lemma radix_decimal c t :
  (c = "0"%char →
   match t with String c2 _ => c2 ≠ "x"%char ∧ c2 ≠ "X"%char | EmptyString => True end) →
  match String c t with
  | String "0" (String "x" r) => (16, r)
  | String "0" (String "X" r) => (16, r)
  | _ => (10, String c t)
  end = (10, String c t).
Proof.
  intros Hzero. destruct (decide (c = "0"%char)) as [->|Hc].
  - destruct t as [|c2 r]; [done|]. destruct (Hzero eq_refl) as [Hx HX].
    clear Hzero. by destruct c2 as [[] [] [] [] [] [] [] []].
  - clear Hzero. by destruct c as [[] [] [] [] [] [] [] []].
Qed.

Lemma parseInt_unsigned c t :
  (code c < 128)%N → ws1 c = false → c ≠ "-"%char → c ≠ "+"%char →
  (c = "0"%char →
   match t with String c2 _ => c2 ≠ "x"%char ∧ c2 ≠ "X"%char | EmptyString => True end) →
  parseInt (String c t)
  = match digits 10 (String c t) None with None => NaN | Some n => Int n end.
Proof.
  intros Hc Hws Hminus Hplus Hzero. unfold parseInt.
  rewrite skip_ws_ascii by done.
  assert (match String c t with
          | String "-" r => (-1, r)
          | String "+" r => (1, r)
          | _ => (1, String c t)
          end = (1, String c t)) as ->.
  { clear -Hminus Hplus. by destruct c as [[] [] [] [] [] [] [] []]. }
  rewrite radix_decimal by done.
  destruct (digits 10 (String c t) None) as [n|]; [|done].
  by rewrite Z.mul_1_l.
Qed.

Lemma parseInt_negative c t :
  (c = "0"%char →
   match t with String c2 _ => c2 ≠ "x"%char ∧ c2 ≠ "X"%char | EmptyString => True end) →
  parseInt (String "-" (String c t))
  = match digits 10 (String c t) None with None => NaN | Some n => Int (- n) end.
Proof.
  intros Hzero. unfold parseInt.
  rewrite skip_ws_ascii by done. cbv iota beta.
  rewrite radix_decimal by done.
  destruct (digits 10 (String c t) None) as [n|]; [|done].
  f_equal; lia.
Qed.

Lemma pretty_N_char_ascii (d : N) :
  (code (pretty_N_char d) < 128)%N ∧ ws1 (pretty_N_char d) = false ∧
  pretty_N_char d ≠ "-"%char ∧ pretty_N_char d ≠ "+"%char ∧
  pretty_N_char d ≠ "x"%char ∧ pretty_N_char d ≠ "X"%char.
Proof. unfold pretty_N_char. by repeat case_match. Qed.

Lemma parseInt_pretty_N_go (x : N) (rest : string) :
  (0 < x)%N → stops rest → parseInt (pretty_N_go x rest) = Int (Z.of_N x).
Proof.
  intros Hx Hrest.
  pose proof (digits_pretty_N_go x rest Hx) as Hdigits.
  rewrite (digits_stops rest) in Hdigits by done.
  destruct (pretty_N_go_shape x rest Hx) as (d & t & Hd & Hshape & Ht).
  rewrite Hshape in Hdigits |- *.
  destruct (pretty_N_char_ascii d) as (? & ? & ? & ? & _).
  rewrite parseInt_unsigned, Hdigits; try done.
  intros _. destruct Ht as [->|(d' & t' & _ & ->)].
  - destruct rest as [|c r]; [done|]. by destruct Hrest as (_ & ? & ?).
  - by destruct (pretty_N_char_ascii d') as (_ & _ & _ & _ & ? & ?).
Qed.

(** [parseInt] reads the decimal rendering of an integer back, also when
    other text follows it. *)
Lemma parseInt_pretty (z : Z) (rest : string) :
  stops rest → parseInt (pretty z +:+ rest) = Int z.
Proof.
  intros Hrest. destruct z as [|p|p]; unfold pretty, pretty_Z.
  - change ("0" +:+ rest) with (String (pretty_N_char 0) rest).
    destruct (pretty_N_char_ascii 0) as (? & ? & ? & ? & _).
    rewrite parseInt_unsigned; try done.
    + simpl. by rewrite digits_stops.
    + intros _. destruct rest as [|c r]; [done|]. by destruct Hrest as (_ & ? & ?).
  - unfold pretty, pretty_positive, pretty, pretty_N.
    rewrite decide_False by done. rewrite pretty_N_go_app.
    by rewrite parseInt_pretty_N_go.
  - unfold pretty, pretty_positive, pretty, pretty_N.
    rewrite decide_False by done.
    change (("-" +:+ pretty_N_go (N.pos p) "") +:+ rest)
      with (String "-" (pretty_N_go (N.pos p) "" +:+ rest)).
    rewrite pretty_N_go_app.
    change ("" +:+ rest) with rest.
    pose proof (digits_pretty_N_go (N.pos p) rest eq_refl) as Hdigits.
    rewrite (digits_stops rest) in Hdigits by done.
    destruct (pretty_N_go_shape (N.pos p) rest) as (d & t & _ & Hshape & Ht);
      [done|].
    rewrite Hshape in Hdigits |- *.
    rewrite parseInt_negative, Hdigits; [done|].
    intros _. destruct Ht as [->|(d' & t' & _ & ->)].
    + destruct rest as [|c r]; [done|]. by destruct Hrest as (_ & ? & ?).
    + by destruct (pretty_N_char_ascii d') as (_ & _ & _ & _ & ? & ?).
Qed.

(** ** The catalog over a run *)

Lemma catalog_ok_above st n :
  catalog_ok st → nextId st ≤ n → inventoryItems st !! Int n = None.
Proof.
  intros [_ Hitems] Hn.
  destruct (inventoryItems st !! Int n) as [it|] eqn:Hit; [|done].
  destruct (Hitems _ _ Hit) as ([= ->] & ? & _). lia.
Qed.

(** X1. After any sequence of requests from the start, every catalog entry
    sits under the key of its own ID, the ID is at least 1 and below the
    counter, a stored photo name is never the empty string, and there is
    no entry under the key NaN nor under any number from the counter
    on. *)
Theorem catalog_invariant
    (fs0 : gmap string (list Byte.byte)) (rs : list request) :
  let st := exec rs (start fs0) in
  1 ≤ nextId st ∧
  (∀ k it, inventoryItems st !! k = Some it →
           k = Int (ID it) ∧ 1 ≤ ID it < nextId st ∧ Photo it ≠ Some "") ∧
  inventoryItems st !! NaN = None ∧
  (∀ n, nextId st ≤ n → inventoryItems st !! Int n = None).
Proof.
  cbn zeta.
  assert (reachable (exec rs (start fs0))) as Hst by (by exists fs0, rs).
  pose proof (reachable_ok _ Hst) as Hok.
  split; [apply Hok|]. split; [apply Hok|].
  split; [by apply reachable_NaN|].
  intros n. by apply catalog_ok_above.
Qed.

Lemma catalog_invariant_witness :
  let st := exec [Register (Some "Drill") None None 5;
                  Register (Some "Saw") None None 6;
                  DeleteItem "1"] initial in
  inventoryItems st !! Int 2 = Some (Item 2 "Saw" "" None) ∧
  (Int 2 = Int 2 ∧ 1 ≤ 2 < nextId st ∧ @None string ≠ Some "") ∧
  inventoryItems st !! Int 7 = None.
Proof.
  destruct (catalog_invariant ∅ [Register (Some "Drill") None None 5;
                                 Register (Some "Saw") None None 6;
                                 DeleteItem "1"])
    as (_ & Hitems & _ & Habove).
  split; [reflexivity|].
  split; [exact (Hitems (Int 2) (Item 2 "Saw" "" None) eq_refl)|].
  apply Habove. vm_compute. discriminate.
Defined.

(** A Register request with a name, the middleware included. *)
Lemma handle_register_named name description photo now st :
  name ≠ "" →
  handle (Register (Some name) description photo now) st =
  let it := {| ID := nextId st;
               InventoryName := name;
               Description := default "" description;
               Photo := filename now <$> photo |} in
  (Response 201 (Json (JObj
     [("message", JStr "Інвентар успішно зареєстровано");
      ("item", prepareItemResponse it)])),
   State (<[Int (nextId st) := it]> (inventoryItems st)) (nextId st + 1)
         (files (upload_single photo now st).2) (console st)).
Proof.
  intros Hname. unfold handle.
  assert (truthy (Some name) = true) as Htruthy by (by apply bool_decide_eq_true).
  assert ((if truthy description then default "" description else "")
          = default "" description) as Hdescr.
  { destruct description as [d|]; [|done]. simpl. by case_bool_decide. }
  destruct photo as [file|]; cbn [upload_single];
    rewrite register_truthy_name by done; cbn zeta; cbn [default];
    by rewrite Hdescr.
Qed.

(** X2. In a reachable state the key that Register uses is free: a
    successful Register adds one entry and changes no other, so the catalog
    grows by exactly one. *)
Theorem register_never_overwrites
    (name : string) (description : option string) (photo : option upload)
    (now : Z) (st : state) :
  reachable st → name ≠ "" →
  let st' := (handle (Register (Some name) description photo now) st).2 in
  inventoryItems st !! Int (nextId st) = None ∧
  is_Some (inventoryItems st' !! Int (nextId st)) ∧
  (∀ k, k ≠ Int (nextId st) → inventoryItems st' !! k = inventoryItems st !! k) ∧
  size (inventoryItems st') = S (size (inventoryItems st)).
Proof.
  intros Hst Hname. cbn zeta.
  assert (inventoryItems st !! Int (nextId st) = None) as Hfree.
  { apply catalog_ok_above; [by apply reachable_ok|lia]. }
  rewrite (handle_register_named name description photo now st Hname).
  cbn [snd inventoryItems].
  split; [done|]. split; [by rewrite lookup_insert_eq|].
  split; [by intros k Hk; rewrite lookup_insert_ne|].
  by apply map_size_insert_None.
Qed.

Lemma register_never_overwrites_witness :
  let st := exec [Register (Some "Drill") None None 5; DeleteItem "1"] initial in
  let st' := (handle (Register (Some "Saw") None None 6) st).2 in
  reachable st ∧ "Saw" ≠ "" ∧
  inventoryItems st !! Int 2 = None ∧
  size (inventoryItems st') = S (size (inventoryItems st)).
Proof.
  split; [by apply reachable_exec, reachable_start|].
  split; [done|].
  destruct (register_never_overwrites "Saw" None None 6
              (exec [Register (Some "Drill") None None 5; DeleteItem "1"] initial))
    as (Hfree & _ & _ & Hsize);
    [by apply reachable_exec, reachable_start | done |].
  split; [exact Hfree|exact Hsize].
Defined.

Lemma assigned_ids_seqZ rs st :
  assigned_ids (responses rs st)
  = seqZ (nextId st) (nextId (exec rs st) - nextId st).
Proof.
  revert st. induction rs as [|r rs IH]; intros st.
  { unfold exec. simpl. by rewrite seqZ_nil by lia. }
  rewrite responses_cons, exec_cons, assigned_ids_cons, IH.
  pose proof (exec_nextId_le rs (handle r st).2) as Hle.
  destruct (assigned_id (handle r st).1) as [n|] eqn:Hn.
  - apply handle_assigned in Hn as (-> & Hstep & _).
    rewrite (seqZ_cons (nextId st)) by lia. rewrite Hstep.
    f_equal. f_equal; lia.
  - destruct (handle_nextId r st) as [->|[_ Hid]]; [done|congruence].
Qed.

(** X3. The ids given out over a run are 1, 2, 3, ... without a gap: the
    ids reported by the successful Register requests of a run from the
    start are the numbers from 1 to the counter's final value less one, in
    this order. *)
Theorem assigned_ids_consecutive
    (fs0 : gmap string (list Byte.byte)) (rs : list request) :
  assigned_ids (responses rs (start fs0))
  = seqZ 1 (nextId (exec rs (start fs0)) - 1).
Proof. apply (assigned_ids_seqZ rs (start fs0)). Qed.

(** An absent id below the counter stays absent. *)
Lemma handle_absent r st n :
  n < nextId st → inventoryItems st !! Int n = None →
  inventoryItems (handle r st).2 !! Int n = None.
Proof.
  intros Hn Hnone. destruct r; simpl.
  - pose proof (upload_single_nextId photo now st) as Hnext.
    pose proof (upload_single_inventoryItems photo now st) as Hitems.
    destruct (upload_single photo now st) as [req_file st1]. simpl in *.
    destruct (truthy inventory_name) eqn:Hname.
    + rewrite register_truthy_name by done. simpl.
      rewrite lookup_insert_ne by (intros [=]; lia). by rewrite Hitems.
    + rewrite register_falsy_name by done. simpl.
      by rewrite unlink_photo_inventoryItems, Hitems.
  - done.
  - unfold get_item. by case_match.
  - unfold update_item. destruct (findItem _ st) as [|it] eqn:Hfind; [done|].
    apply findItem_inr in Hfind. simpl.
    rewrite lookup_insert_ne; [done|congruence].
  - unfold delete_item. destruct (findItem _ st) as [|it] eqn:Hfind; [done|].
    simpl. rewrite unlink_photo_inventoryItems.
    destruct (decide (Int (ID it) = Int n)) as [->|Hne].
    + apply lookup_delete_eq.
    + by rewrite lookup_delete_ne.
  - unfold get_photo, sendFile. by repeat case_match.
  - pose proof (upload_single_inventoryItems photo now st) as Hitems.
    destruct (upload_single photo now st) as [req_file st1]. simpl in *.
    unfold replace_photo.
    destruct (findItem _ st1) as [|it] eqn:Hfind; [simpl; by rewrite Hitems|].
    apply findItem_inr in Hfind. rewrite Hitems in Hfind.
    destruct req_file as [f|]; simpl; [|by rewrite Hitems].
    rewrite unlink_photo_inventoryItems, Hitems.
    rewrite lookup_insert_ne; [done|congruence].
  - unfold search. by case_match.
Qed.

Lemma exec_absent rs st n :
  n < nextId st → inventoryItems st !! Int n = None →
  inventoryItems (exec rs st) !! Int n = None.
Proof.
  revert st. induction rs as [|r rs IH]; intros st Hn Hnone; [done|].
  rewrite exec_cons. apply IH.
  - pose proof (handle_nextId_le r st). lia.
  - by apply handle_absent.
Qed.

(** X4. A deleted id never comes back: after Delete of an existing item,
    whatever requests follow, the catalog has no entry under the id, and
    Get, Update, Delete, GetPhoto and Search on it are answered with 404. *)
Theorem deleted_id_stays_absent
    (id : string) (st : state) (it : item) (rs : list request) :
  reachable st →
  inventoryItems st !! parseInt id = Some it →
  let st' := exec (DeleteItem id :: rs) st in
  inventoryItems st' !! parseInt id = None ∧
  status (handle (GetItem id) st').1 = 404 ∧
  (∀ n d, status (handle (UpdateItem id n d) st').1 = 404) ∧
  status (handle (DeleteItem id) st').1 = 404 ∧
  status (handle (GetPhoto id) st').1 = 404 ∧
  (∀ p, status (handle (Search (Some id) p) st').1 = 404).
Proof.
  intros Hst Hit. cbn zeta.
  destruct (reachable_ok st Hst) as [_ Hitems].
  destruct (Hitems _ _ Hit) as (Hk & Hid & _).
  assert (inventoryItems (exec (DeleteItem id :: rs) st) !! parseInt id = None)
    as Hnone.
  { rewrite exec_cons, Hk. apply exec_absent.
    - pose proof (handle_nextId_le (DeleteItem id) st). lia.
    - simpl. unfold delete_item. apply findItem_inr in Hit as ->. simpl.
      rewrite unlink_photo_inventoryItems. apply lookup_delete_eq. }
  split; [done|].
  split; [by apply get_item_unknown|].
  split; [intros; by apply update_item_unknown|].
  split; [by apply delete_item_unknown|].
  split; [by apply get_photo_unknown|].
  intros p. by apply search_unknown.
Qed.

Lemma deleted_id_stays_absent_witness :
  let st := exec [Register (Some "Drill") None None 5] initial in
  let rs := [Register (Some "Saw") None None 6; UpdateItem "1" (Some "x") None] in
  reachable st ∧
  inventoryItems st !! parseInt "1" = Some (Item 1 "Drill" "" None) ∧
  inventoryItems (exec (DeleteItem "1" :: rs) st) !! parseInt "1" = None ∧
  status (handle (GetItem "1") (exec (DeleteItem "1" :: rs) st)).1 = 404.
Proof.
  split; [by apply reachable_exec, reachable_start|].
  split; [reflexivity|].
  destruct (deleted_id_stays_absent "1"
              (exec [Register (Some "Drill") None None 5] initial)
              (Item 1 "Drill" "" None)
              [Register (Some "Saw") None None 6; UpdateItem "1" (Some "x") None])
    as (Hnone & Hget & _);
    [by apply reachable_exec, reachable_start | reflexivity |].
  split; [exact Hnone|exact Hget].
Defined.

(** ** Round trips *)

Lemma append_empty (s : string) : s +:+ "" = s.
Proof.
  induction s as [|c s IH]; [done|].
  change (String c s +:+ "") with (String c (s +:+ "")). by rewrite IH.
Qed.

Lemma parseInt_pretty_id (z : Z) : parseInt (pretty z) = Int z.
Proof. rewrite <-(parseInt_pretty z "") by done. by rewrite append_empty. Qed.

(** X5. An item can be fetched under the id it was given: after a
    successful Register, Get with the decimal rendering of the reported ID
    is answered with 200 and the very view that Register returned, and
    changes nothing. *)
Theorem register_then_get
    (name : string) (description : option string) (photo : option upload)
    (now : Z) (st : state) :
  name ≠ "" →
  let reg := handle (Register (Some name) description photo now) st in
  ∃ id v,
    reg.1 = Response 201 (Json (JObj
              [("message", JStr "Інвентар успішно зареєстровано");
               ("item", v)])) ∧
    assigned_id reg.1 = Some id ∧
    handle (GetItem (pretty id)) reg.2 = (Response 200 (Json v), reg.2).
Proof.
  intros Hname. cbn zeta. rewrite handle_register_named by done. cbn zeta.
  eexists (nextId st), _. split; [done|]. split; [done|].
  unfold handle, get_item, findItem. rewrite parseInt_pretty_id.
  cbn [snd inventoryItems]. by rewrite lookup_insert_eq.
Qed.

Lemma register_then_get_witness :
  "Drill" ≠ "" ∧
  let reg := handle (Register (Some "Drill") (Some "Cordless drill") None 5)
                    initial in
  ∃ id v, assigned_id reg.1 = Some id ∧
          handle (GetItem (pretty id)) reg.2 = (Response 200 (Json v), reg.2).
Proof.
  split; [done|].
  destruct (register_then_get "Drill" (Some "Cordless drill") None 5 initial)
    as (id & v & _ & Hid & Hget); [done|].
  exists id, v. split; [exact Hid|exact Hget].
Defined.

(** X6. A photo sent with a successful Register can be fetched at once:
    GetPhoto with the decimal rendering of the new id is answered with 200,
    content type image/jpeg and the bytes that were uploaded. *)
Theorem register_then_get_photo
    (name : string) (description : option string) (file : upload)
    (now : Z) (st : state) :
  name ≠ "" →
  let reg := handle (Register (Some name) description (Some file) now) st in
  handle (GetPhoto (pretty (nextId st))) reg.2
  = (Response 200 (File "image/jpeg" (data file)), reg.2).
Proof.
  intros Hname. cbn zeta. rewrite handle_register_named by done. cbn zeta.
  unfold handle. cbn [snd].
  apply (get_photo_found _ _
           (Item (nextId st) name (default "" description)
                 (Some (filename now file)))
           (filename now file)).
  - rewrite parseInt_pretty_id. simpl. apply lookup_insert_eq.
  - done.
  - apply filename_nonempty.
  - simpl. apply lookup_insert_eq.
Qed.

Lemma register_then_get_photo_witness :
  "Drill" ≠ "" ∧
  let reg := handle (Register (Some "Drill") None
                       (Some (Upload "a.png" [Byte.x89; Byte.x50])) 5) initial in
  (handle (GetPhoto "1") reg.2).1
  = Response 200 (File "image/jpeg" [Byte.x89; Byte.x50]).
Proof.
  split; [done|].
  exact (f_equal fst (register_then_get_photo "Drill" None
           (Upload "a.png" [Byte.x89; Byte.x50]) 5 initial ltac:(done))).
Defined.

(** ** Update *)

Lemma set_inventoryItems_id st : set_inventoryItems (inventoryItems st) st = st.
Proof. by destruct st. Qed.

(** X7. An Update that supplies neither field is answered with the current
    view of the item and leaves the whole state as it was. *)
Theorem update_without_fields (id : string) (st : state) (it : item) :
  inventoryItems st !! parseInt id = Some it →
  handle (UpdateItem id None None) st
  = (Response 200 (Json (prepareItemResponse it)), st).
Proof.
  intros Hit. unfold handle, update_item.
  rewrite (proj2 (findItem_inr _ _ _) Hit).
  by rewrite insert_id, set_inventoryItems_id.
Qed.

Lemma update_without_fields_witness :
  let st := exec [Register (Some "Drill") None None 5] initial in
  inventoryItems st !! parseInt "1" = Some (Item 1 "Drill" "" None) ∧
  (handle (UpdateItem "1" None None) st).2 = st.
Proof.
  split; [reflexivity|].
  exact (f_equal snd (update_without_fields "1"
           (exec [Register (Some "Drill") None None 5] initial)
           (Item 1 "Drill" "" None) eq_refl)).
Defined.

(** X8. Update is idempotent: sending the same Update a second time gives
    the same response and the same state as sending it once, whether the
    item exists or not. *)
Theorem update_idempotent
    (id : string) (name description : option string) (st : state) :
  handle (UpdateItem id name description)
         (handle (UpdateItem id name description) st).2
  = handle (UpdateItem id name description) st.
Proof.
  unfold handle, update_item.
  destruct (findItem (parseInt id) st) as [res|it] eqn:Hfind.
  { cbn [snd]. by rewrite Hfind. }
  cbn [snd]. set (it2 := match description with Some _ => _ | None => _ end).
  assert (findItem (parseInt id)
            (set_inventoryItems (<[parseInt id := it2]> (inventoryItems st)) st)
          = inr it2) as ->.
  { apply findItem_inr. simpl. apply lookup_insert_eq. }
  assert (match description with
          | Some v =>
              Item (ID match name with
                       | Some v0 => Item (ID it2) v0 (Description it2) (Photo it2)
                       | None => it2 end)
                   (InventoryName match name with
                       | Some v0 => Item (ID it2) v0 (Description it2) (Photo it2)
                       | None => it2 end)
                   v
                   (Photo match name with
                       | Some v0 => Item (ID it2) v0 (Description it2) (Photo it2)
                       | None => it2 end)
          | None => match name with
                    | Some v0 => Item (ID it2) v0 (Description it2) (Photo it2)
                    | None => it2 end
          end = it2) as ->.
  { unfold it2. by destruct it, name, description. }
  f_equal. unfold set_inventoryItems. simpl. by rewrite insert_insert_eq.
Qed.

(** X9. What Update answers is what a Get that follows answers: for every
    id, existing or not, the response to Get after an Update equals the
    response to the Update. *)
Theorem update_then_get
    (id : string) (name description : option string) (st : state) :
  (handle (GetItem id) (handle (UpdateItem id name description) st).2).1
  = (handle (UpdateItem id name description) st).1.
Proof.
  unfold handle, update_item, get_item.
  destruct (findItem (parseInt id) st) as [res|it] eqn:Hfind.
  { cbn [snd]. by rewrite Hfind. }
  cbn [fst snd]. set (it2 := match description with Some _ => _ | None => _ end).
  assert (findItem (parseInt id)
            (set_inventoryItems (<[parseInt id := it2]> (inventoryItems st)) st)
          = inr it2) as ->; [|done].
  apply findItem_inr. simpl. apply lookup_insert_eq.
Qed.


(** ** List *)

Global Instance key_le_total : Total key_le.
Proof. intros [[|x] ?] [[|y] ?]; unfold key_le; simpl; auto; lia. Qed.

Global Instance key_le_trans : Transitive key_le.
Proof.
  intros [[|x] ?] [[|y] ?] [[|z] ?]; unfold key_le; simpl; auto; try done; lia.
Qed.

Lemma sorted_entries_ids (l : list (number * item)) :
  StronglySorted key_le l → NoDup l.*1 →
  (∀ k it, (k, it) ∈ l → k = Int (ID it)) →
  StronglySorted Z.lt (ID <$> l.*2).
Proof.
  induction 1 as [|[k it] l Hsorted IH Hall]; intros Hnodup Hkeys;
    [constructor|].
  simpl in *. apply NoDup_cons in Hnodup as [Hk Hnodup].
  constructor.
  - apply IH; [done|]. intros k' it' Hin. apply Hkeys. by right.
  - rewrite Forall_fmap, Forall_fmap. rewrite Forall_forall in Hall |- *.
    intros [k' it'] Hin. simpl.
    pose proof (Hkeys k it ltac:(left)) as ->.
    pose proof (Hkeys k' it' ltac:(by right)) as ->.
    specialize (Hall _ Hin). unfold key_le in Hall. simpl in Hall.
    assert (ID it ≠ ID it'); [|lia].
    intros E. apply Hk. rewrite E.
    apply list_elem_of_fmap. by exists (Int (ID it'), it').
Qed.

(** X10. In a reachable state List is answered with status 200 and one
    view per catalog entry, in ascending order of ID, no ID twice; the
    items listed are exactly the entries of the catalog, and the state is
    left as it was. *)
Theorem list_items_sorted (st : state) :
  reachable st →
  ∃ l : list item,
    handle ListItems st
      = (Response 200 (Json (JArr (prepareItemResponse <$> l))), st) ∧
    (∀ it, it ∈ l ↔ inventoryItems st !! Int (ID it) = Some it) ∧
    length l = size (inventoryItems st) ∧
    StronglySorted Z.lt (ID <$> l).
Proof.
  intros [_ Hitems]%reachable_ok.
  exists (Object_values (inventoryItems st)). split; [done|].
  split; [|split].
  - intros it. rewrite elem_of_Object_values. split.
    + intros [k Hk]. by destruct (Hitems _ _ Hk) as (-> & _).
    + eauto.
  - unfold Object_values.
    by rewrite length_fmap, merge_sort_Permutation, length_map_to_list.
  - unfold Object_values. apply sorted_entries_ids.
    + apply (StronglySorted_merge_sort _).
    + rewrite merge_sort_Permutation. apply NoDup_fst_map_to_list.
    + intros k it. rewrite merge_sort_Permutation, elem_of_map_to_list.
      intros Hk. by destruct (Hitems _ _ Hk) as (-> & _).
Qed.

Lemma list_items_sorted_witness :
  let st := exec [Register (Some "Drill") None None 5;
                  Register (Some "Saw") None None 6;
                  Register (Some "Axe") None None 7;
                  DeleteItem "2"] initial in
  reachable st ∧
  ∃ l, (handle ListItems st).1
         = Response 200 (Json (JArr (prepareItemResponse <$> l))) ∧
       length l = size (inventoryItems st) ∧
       StronglySorted Z.lt (ID <$> l).
Proof.
  split; [by apply reachable_exec, reachable_start|].
  destruct (list_items_sorted
              (exec [Register (Some "Drill") None None 5;
                     Register (Some "Saw") None None 6;
                     Register (Some "Axe") None None 7;
                     DeleteItem "2"] initial))
    as (l & Hres & _ & Hlen & Hsorted);
    [by apply reachable_exec, reachable_start|].
  exists l. split; [exact (f_equal fst Hres)|]. split; [exact Hlen|exact Hsorted].
Defined.


(** ** Catalog and cache directory *)

Lemma unlink_photo_files_other p st f :
  p ≠ Some f → files (unlink_photo p st) !! f = files st !! f.
Proof.
  intros Hne. unfold unlink_photo. destruct p as [o|]; [|done].
  case_match; [|done]. rewrite unlink_files.
  apply lookup_delete_ne. congruence.
Qed.

Lemma referenced_same st st' f :
  inventoryItems st' = inventoryItems st → referenced st' f ↔ referenced st f.
Proof. unfold referenced. by intros ->. Qed.

Lemma referenced_insert st m k it it' f :
  inventoryItems st !! k = Some it → Photo it' = Photo it →
  referenced (set_inventoryItems (<[k := it']> m) st) f →
  m = inventoryItems st → referenced st f.
Proof.
  intros Hit Hphoto (k' & it'' & Hk' & Hf) ->. simpl in Hk'.
  rewrite lookup_insert in Hk'. case_decide as Hk.
  - injection Hk' as <-. exists k, it. split; [done|congruence].
  - by exists k', it''.
Qed.

(** The files the catalog refers to after a request were referred to
    before it or were uploaded with it. *)
Lemma handle_referenced r st g :
  referenced (handle r st).2 g → referenced st g ∨ upload_name r = Some g.
Proof.
  destruct r; simpl.
  - pose proof (upload_single_inventoryItems photo now st) as Hitems.
    pose proof (upload_single_name photo now st) as Hname.
    destruct (upload_single photo now st) as [req_file st1]. simpl in *.
    destruct (truthy inventory_name) eqn:Htruthy.
    + rewrite register_truthy_name by done. simpl.
      intros (k & it & Hk & Hg). simpl in Hk.
      rewrite lookup_insert in Hk. case_decide as Hkey.
      * injection Hk as <-. simpl in Hg. right. subst req_file.
        by destruct photo.
      * left. exists k, it. by rewrite <-Hitems.
    + rewrite register_falsy_name by done. simpl.
      intros Href. left. apply (referenced_same st) in Href; [done|].
      by rewrite unlink_photo_inventoryItems.
  - by left.
  - unfold get_item. case_match; by left.
  - unfold update_item. destruct (findItem _ st) as [|it] eqn:Hfind; [by left|].
    apply findItem_inr in Hfind. simpl. intros Href. left.
    eapply referenced_insert; [exact Hfind| |exact Href|done].
    by destruct name, description.
  - unfold delete_item. destruct (findItem _ st) as [|it] eqn:Hfind; [by left|].
    simpl. intros (k & it' & Hk & Hg). left. simpl in Hk.
    rewrite unlink_photo_inventoryItems in Hk.
    apply lookup_delete_Some in Hk as [_ Hk]. by exists k, it'.
  - unfold get_photo, sendFile. intros Href. left.
    by repeat case_match.
  - pose proof (upload_single_inventoryItems photo now st) as Hitems.
    pose proof (upload_single_name photo now st) as Hname.
    destruct (upload_single photo now st) as [req_file st1]. simpl in *.
    unfold replace_photo.
    destruct (findItem _ st1) as [|it] eqn:Hfind.
    { intros Href. left. by apply (referenced_same st) in Href. }
    destruct req_file as [f|].
    2: { intros Href. left. by apply (referenced_same st) in Href. }
    simpl. intros (k & it' & Hk & Hg). simpl in Hk.
    rewrite unlink_photo_inventoryItems, lookup_insert in Hk.
    case_decide as Hkey.
    + injection Hk as <-. simpl in Hg. right.
      destruct photo; simpl in Hname; congruence.
    + left. exists k, it'. by rewrite <-Hitems.
  - unfold search. case_match; by left.
Qed.

(** A request leaves alone every file that is neither referred to by the
    catalog nor named like its own upload. *)
Lemma handle_files_frame r st f :
  ¬ referenced st f → upload_name r ≠ Some f →
  files (handle r st).2 !! f = files st !! f.
Proof.
  intros Href Hup. destruct r; simpl.
  - assert (files (upload_single photo now st).2 !! f = files st !! f) as Hfiles.
    { destruct photo as [file|]; [|done]. simpl in *.
      apply lookup_insert_ne. congruence. }
    pose proof (upload_single_name photo now st) as Hname.
    destruct (upload_single photo now st) as [req_file st1]. simpl in *.
    destruct (truthy inventory_name) eqn:Htruthy.
    + by rewrite register_truthy_name.
    + rewrite register_falsy_name by done. simpl.
      rewrite unlink_photo_files_other; [done|].
      subst req_file. by destruct photo.
  - done.
  - unfold get_item. by case_match.
  - unfold update_item. by case_match.
  - unfold delete_item. destruct (findItem _ st) as [|it] eqn:Hfind; [done|].
    apply findItem_inr in Hfind. simpl.
    apply unlink_photo_files_other. intros Hf. apply Href. by eexists _, it.
  - unfold get_photo, sendFile. by repeat case_match.
  - assert (files (upload_single photo now st).2 !! f = files st !! f) as Hfiles.
    { destruct photo as [file|]; [|done]. simpl in *.
      apply lookup_insert_ne. congruence. }
    pose proof (upload_single_inventoryItems photo now st) as Hitems.
    destruct (upload_single photo now st) as [req_file st1]. simpl in *.
    unfold replace_photo.
    destruct (findItem _ st1) as [|it] eqn:Hfind; [done|].
    apply findItem_inr in Hfind. rewrite Hitems in Hfind.
    destruct req_file as [f'|]; [|done]. simpl.
    rewrite unlink_photo_files_other; [done|].
    intros Hf. apply Href. by eexists _, it.
  - unfold search. by case_match.
Qed.

Lemma upload_names_cons r rs :
  upload_names (r :: rs) =
  match upload_name r with
  | Some f => f :: upload_names rs
  | None => upload_names rs
  end.
Proof. done. Qed.

Lemma exec_files_frame rs st f :
  ¬ referenced st f → f ∉ upload_names rs →
  files (exec rs st) !! f = files st !! f.
Proof.
  revert st. induction rs as [|r rs IH]; intros st Href Hnames; [done|].
  rewrite upload_names_cons in Hnames. rewrite exec_cons.
  assert (upload_name r ≠ Some f ∧ f ∉ upload_names rs) as [Hr Hrs].
  { destruct (upload_name r); [|done].
    apply not_elem_of_cons in Hnames as [? ?]. split; congruence. }
  rewrite IH; [by apply handle_files_frame| |done].
  intros [?|?]%handle_referenced; done.
Qed.

(** X11. The service touches no file but its uploads: a file of the cache
    directory whose name no upload of the run is given is, after any
    sequence of requests from the start, exactly what it was at the start
    (present with the same bytes, or absent). *)
Theorem other_files_untouched
    (fs0 : gmap string (list Byte.byte)) (rs : list request) (f : string) :
  f ∉ upload_names rs →
  files (exec rs (start fs0)) !! f = fs0 !! f.
Proof.
  intros Hf. apply (exec_files_frame rs (start fs0)); [|done].
  intros (k & it & Hk & _). simpl in Hk. by rewrite lookup_empty in Hk.
Qed.

Lemma other_files_untouched_witness :
  let rs := [Register (Some "Drill") None (Some (Upload "a.jpg" [Byte.x01])) 5;
             Register None None (Some (Upload "b.jpg" [Byte.x02])) 6;
             DeleteItem "1"] in
  ("notes.txt" ∉ upload_names rs) ∧
  files (exec rs (start {["notes.txt" := [Byte.x03]]})) !! "notes.txt"
    = Some [Byte.x03].
Proof.
  assert ("notes.txt" ∉ upload_names
            [Register (Some "Drill") None (Some (Upload "a.jpg" [Byte.x01])) 5;
             Register None None (Some (Upload "b.jpg" [Byte.x02])) 6;
             DeleteItem "1"]) as Hnot.
  { apply (bool_decide_unpack _). by vm_compute. }
  split; [exact Hnot|].
  exact (other_files_untouched {["notes.txt" := [Byte.x03]]} _ "notes.txt" Hnot).
Defined.


Lemma distinct_photos_insert (m : gmap number item) k new :
  (∀ k' it' f, m !! k' = Some it' → k' ≠ k → Photo it' = Some f →
               Photo new ≠ Some f) →
  distinct_photos m → distinct_photos (<[k := new]> m).
Proof.
  intros Hnew Hm k1 k2 it1 it2 f. rewrite !lookup_insert.
  repeat case_decide; subst; try done.
  - intros [= <-] H2 Hf1 Hf2. by destruct (Hnew _ _ _ H2 ltac:(done) Hf2).
  - intros H1 [= <-] Hf1 Hf2. by destruct (Hnew _ _ _ H1 ltac:(done) Hf1).
  - apply Hm.
Qed.

Lemma distinct_photos_delete (m : gmap number item) k :
  distinct_photos m → distinct_photos (delete k m).
Proof.
  intros Hm k1 k2 it1 it2 f [_ H1]%lookup_delete_Some [_ H2]%lookup_delete_Some.
  by apply Hm.
Qed.

Lemma unlink_photo_present f st :
  f ≠ "" → is_Some (files st !! f) →
  unlink_photo (Some f) st = set_files (delete f (files st)) st.
Proof.
  intros Hf [bytes Hbytes]. unfold unlink_photo, truthy, unlink.
  by rewrite bool_decide_eq_true_2, Hbytes.
Qed.

Lemma photos_ok_register name description photo now st :
  name ≠ "" → photos_ok st →
  (∀ file, photo = Some file → ¬ referenced st (filename now file)) →
  photos_ok (handle (Register (Some name) description photo now) st).2.
Proof.
  intros Hname (Hfiles & Hdistinct & Hconsole) Hfresh.
  rewrite handle_register_named by done. cbn zeta. cbn [snd].
  split; [|split; [|done]].
  - intros g (k & it & Hk & Hg). simpl in Hk |- *.
    rewrite lookup_insert in Hk. case_decide as Hkey.
    + injection Hk as <-. simpl in Hg.
      destruct photo as [file|]; [|done]. injection Hg as <-. simpl.
      by rewrite lookup_insert_eq.
    + assert (is_Some (files st !! g)) as Hsome by (apply Hfiles; by exists k, it).
      destruct photo as [file|]; [|done]. simpl.
      rewrite lookup_insert_is_Some.
      destruct (decide (filename now file = g)); auto.
  - simpl. apply distinct_photos_insert; [|done].
    intros k' it' f Hk' _ Hf. simpl.
    destruct photo as [file|]; [|done]. simpl. intros [= E].
    apply (Hfresh file eq_refl). rewrite E. by exists k', it'.
Qed.

Lemma photos_ok_register_rejected name description photo now st :
  truthy name = false → photos_ok st →
  (∀ file, photo = Some file → ¬ referenced st (filename now file)) →
  photos_ok (handle (Register name description photo now) st).2.
Proof.
  intros Hname (Hfiles & Hdistinct & Hconsole) Hfresh. unfold handle.
  destruct photo as [file|]; cbn [upload_single];
    rewrite register_falsy_name by done; cbn [snd]; [|done].
  rewrite unlink_photo_present;
    [|apply filename_nonempty|simpl; by rewrite lookup_insert_eq].
  split; [|done]. intros g Hg.
  assert (referenced st g) as Hg' by done. simpl.
  rewrite delete_insert_eq, lookup_delete_ne; [by apply Hfiles|].
  intros <-. by apply (Hfresh file).
Qed.

Lemma photos_ok_update id name description st :
  photos_ok st → photos_ok (update_item id name description st).2.
Proof.
  intros (Hfiles & Hdistinct & Hconsole). unfold update_item.
  destruct (findItem _ st) as [|it] eqn:Hfind; [done|].
  apply findItem_inr in Hfind. cbn [snd].
  set (it2 := match description with Some _ => _ | None => _ end).
  assert (Photo it2 = Photo it) as Hphoto by (by destruct name, description).
  split; [|split; [|done]].
  - intros g Hg. apply Hfiles.
    by eapply referenced_insert; [exact Hfind|exact Hphoto|exact Hg|].
  - simpl. apply distinct_photos_insert; [|done].
    intros k' it' f Hk' Hne Hf. rewrite Hphoto. intros Hf'.
    apply Hne. by apply (Hdistinct _ _ _ _ f Hk' Hfind).
Qed.

Lemma photos_ok_delete id st :
  catalog_ok st → photos_ok st → photos_ok (delete_item id st).2.
Proof.
  intros [_ Hitems] (Hfiles & Hdistinct & Hconsole). unfold delete_item.
  destruct (findItem _ st) as [|it] eqn:Hfind; [done|].
  apply findItem_inr in Hfind. cbn [snd].
  destruct (Hitems _ _ Hfind) as (Hk & _ & Hne).
  destruct (Photo it) as [o|] eqn:Ho.
  - rewrite unlink_photo_present;
      [|congruence|apply Hfiles; by eexists _, it].
    split; [|split; [by apply distinct_photos_delete|done]].
    intros g (k' & it' & Hk' & Hg). simpl in Hk' |- *.
    apply lookup_delete_Some in Hk' as [Hk' Hit'].
    rewrite lookup_delete_ne; [apply Hfiles; by exists k', it'|].
    intros <-. apply Hk'. rewrite <-Hk.
    by apply (Hdistinct _ _ _ _ o Hfind Hit').
  - simpl. split; [|split; [by apply distinct_photos_delete|done]].
    intros g (k' & it' & Hk' & Hg). simpl in Hk' |- *.
    apply lookup_delete_Some in Hk' as [Hk' Hit'].
    apply Hfiles. by exists k', it'.
Qed.

Lemma photos_ok_get_photo id st :
  photos_ok st → (get_photo id st).2 = st.
Proof.
  intros (Hfiles & _). unfold get_photo.
  destruct (inventoryItems st !! parseInt id) as [it|] eqn:Hit; [|done].
  destruct (Photo it) as [f|] eqn:Hf; [|done].
  case_match; [|done]. unfold sendFile.
  destruct (Hfiles f) as [bytes ->]; [by eexists _, it|done].
Qed.

Lemma photos_ok_replace_photo id photo now st :
  catalog_ok st → photos_ok st →
  (∀ file, photo = Some file → ¬ referenced st (filename now file)) →
  photos_ok (handle (ReplacePhoto id photo now) st).2.
Proof.
  intros [_ Hitems] (Hfiles & Hdistinct & Hconsole) Hfresh. unfold handle.
  destruct photo as [file|]; cbn [upload_single].
  2: { unfold replace_photo. by destruct (findItem _ st). }
  set (f := filename now file).
  assert (¬ referenced st f) as Hf by (by apply (Hfresh file)).
  set (st1 := set_files (<[f := data file]> (files st)) st).
  assert (∀ g, referenced st g → is_Some (files st1 !! g)) as Hfiles1.
  { intros g Hg. simpl. rewrite lookup_insert_is_Some.
    destruct (decide (f = g)); auto. }
  unfold replace_photo.
  destruct (findItem _ st1) as [|it] eqn:Hfind; [done|].
  apply findItem_inr in Hfind. change (inventoryItems st1) with (inventoryItems st) in Hfind.
  destruct (Hitems _ _ Hfind) as (Hk & _ & Hne). cbn [snd].
  set (it' := Item (ID it) (InventoryName it) (Description it) (Some f)).
  assert (distinct_photos (<[parseInt id := it']> (inventoryItems st))) as Hdistinct'.
  { apply distinct_photos_insert; [|done].
    intros k' e g Hk' _ Hg. simpl. intros [= <-]. apply Hf. by exists k', e. }
  destruct (Photo it) as [o|] eqn:Ho.
  - assert (o ≠ f) as Hof by (intros ->; apply Hf; by eexists _, it).
    rewrite unlink_photo_present; [|congruence|apply Hfiles1; by eexists _, it].
    split; [|done]. simpl.
    intros g (k' & e & Hk' & Hg). simpl in Hk'.
    rewrite lookup_insert in Hk'. case_decide as Hkey.
    + injection Hk' as <-. simpl in Hg. injection Hg as <-.
      by rewrite lookup_delete_ne, lookup_insert_eq.
    + rewrite lookup_delete_ne; [apply Hfiles1; by exists k', e|].
      intros <-. apply Hkey. by apply (Hdistinct _ _ _ _ o Hfind Hk').
  - split; [|done]. simpl.
    intros g (k' & e & Hk' & Hg). simpl in Hk'.
    rewrite lookup_insert in Hk'. case_decide as Hkey.
    + injection Hk' as <-. simpl in Hg. injection Hg as <-.
      by rewrite lookup_insert_eq.
    + apply Hfiles1. by exists k', e.
Qed.

Lemma handle_photos_ok r st :
  catalog_ok st → photos_ok st →
  (∀ f, upload_name r = Some f → ¬ referenced st f) →
  photos_ok (handle r st).2.
Proof.
  intros Hok Hphotos Hfresh. destruct r.
  - destruct (truthy inventory_name) eqn:Hname.
    + destruct inventory_name as [name|]; [|done].
      apply photos_ok_register; [by apply bool_decide_eq_true in Hname|done|].
      intros file ->. by apply Hfresh.
    + apply photos_ok_register_rejected; [done..|].
      intros file ->. by apply Hfresh.
  - done.
  - simpl. unfold get_item. by case_match.
  - by apply photos_ok_update.
  - by apply photos_ok_delete.
  - simpl. by rewrite photos_ok_get_photo.
  - apply photos_ok_replace_photo; [done..|].
    intros file ->. by apply Hfresh.
  - simpl. unfold search. by case_match.
Qed.

Lemma exec_photos_ok rs st :
  catalog_ok st → photos_ok st → NoDup (upload_names rs) →
  (∀ f, f ∈ upload_names rs → ¬ referenced st f) →
  photos_ok (exec rs st).
Proof.
  revert st. induction rs as [|r rs IH]; intros st Hok Hphotos Hnodup Hfresh;
    [done|].
  rewrite exec_cons. rewrite upload_names_cons in Hnodup, Hfresh.
  apply IH.
  - by apply handle_ok.
  - apply handle_photos_ok; [done..|]. intros f Hf. apply Hfresh.
    rewrite Hf. by left.
  - destruct (upload_name r); [by apply NoDup_cons in Hnodup as [_ ?]|done].
  - intros f Hf [Hold|Hnew]%handle_referenced.
    + apply (Hfresh f); [|done]. destruct (upload_name r); [by right|done].
    + rewrite Hnew in Hnodup. by apply NoDup_cons in Hnodup as [? _].
Qed.

(** X12. As long as no two uploads of a run are given the same file name,
    catalog and cache directory stay in step: after the run every photo
    reference names a file that is there, no two entries refer to the same
    file, nothing has been logged, and GetPhoto is never answered with
    500. *)
Theorem distinct_uploads_keep_photos
    (fs0 : gmap string (list Byte.byte)) (rs : list request) :
  NoDup (upload_names rs) →
  let st := exec rs (start fs0) in
  (∀ k it f, inventoryItems st !! k = Some it → Photo it = Some f →
             is_Some (files st !! f)) ∧
  distinct_photos (inventoryItems st) ∧
  console st = [] ∧
  (∀ id, status (handle (GetPhoto id) st).1 = 404 ∨
         status (handle (GetPhoto id) st).1 = 200).
Proof.
  intros Hnodup. cbn zeta.
  assert (photos_ok (exec rs (start fs0))) as (Hfiles & Hdistinct & Hconsole).
  { apply exec_photos_ok; [apply start_ok| |done|].
    - split; [|done]. intros f (k & it & Hk & _).
      simpl in Hk. by rewrite lookup_empty in Hk.
    - intros f _ (k & it & Hk & _). simpl in Hk. by rewrite lookup_empty in Hk. }
  split; [intros k it f Hk Hf; apply Hfiles; by exists k, it|].
  split; [done|]. split; [done|].
  intros id. simpl. unfold get_photo.
  destruct (inventoryItems _ !! parseInt id) as [it|] eqn:Hit; [|by left].
  destruct (Photo it) as [f|] eqn:Hf; [|by left].
  case_match; [|by left]. unfold sendFile.
  destruct (Hfiles f) as [bytes ->]; [by eexists _, it|by right].
Qed.

Lemma distinct_uploads_keep_photos_witness :
  let rs := [Register (Some "Drill") None (Some (Upload "a.jpg" [Byte.x01])) 5;
             ReplacePhoto "1" (Some (Upload "a.jpg" [Byte.x02])) 6;
             ReplacePhoto "9" (Some (Upload "b.jpg" [Byte.x03])) 6] in
  NoDup (upload_names rs) ∧
  console (exec rs initial) = [] ∧
  is_Some (files (exec rs initial) !! "6-a.jpg").
Proof.
  assert (NoDup (upload_names
            [Register (Some "Drill") None (Some (Upload "a.jpg" [Byte.x01])) 5;
             ReplacePhoto "1" (Some (Upload "a.jpg" [Byte.x02])) 6;
             ReplacePhoto "9" (Some (Upload "b.jpg" [Byte.x03])) 6])) as Hnodup.
  { apply (bool_decide_unpack _). by vm_compute. }
  split; [exact Hnodup|].
  destruct (distinct_uploads_keep_photos ∅ _ Hnodup)
    as (Hfiles & _ & Hconsole & _).
  split; [exact Hconsole|].
  apply (Hfiles (Int 1) (Item 1 "Drill" "" (Some "6-a.jpg")) "6-a.jpg");
    reflexivity.
Defined.

(** ** File names *)

Lemma replace_ws_eq c1 s1 :
  replace_ws (String c1 s1) =
  if ws1 c1 then String "_" (replace_ws s1)
  else match s1 with
       | String c2 s2 =>
           if ws2 c1 c2 then String "_" (replace_ws s2)
           else match s2 with
                | String c3 s3 =>
                    if ws3 c1 c2 c3 then String "_" (replace_ws s3)
                    else String c1 (replace_ws s1)
                | EmptyString => String c1 (replace_ws s1)
                end
       | EmptyString => String c1 (replace_ws s1)
       end.
Proof. reflexivity. Qed.

(** A character that starts no white space is copied. *)
Lemma replace_ws_copy c s1 :
  ws_head (String c s1) = false →
  replace_ws (String c s1) = String c (replace_ws s1).
Proof.
  rewrite replace_ws_eq. unfold ws_head.
  destruct (ws1 c); [done|]. destruct s1 as [|c2 s2]; [done|].
  destruct (ws2 c c2); [done|]. destruct s2 as [|c3 s3]; [done|].
  by destruct (ws3 c c2 c3).
Qed.

(** A white space character is replaced by one underscore. *)
Lemma replace_ws_replace c s1 :
  ws_head (String c s1) = true →
  ∃ r, replace_ws (String c s1) = String "_" (replace_ws r) ∧
       (String.length r ≤ String.length s1)%nat.
Proof.
  rewrite replace_ws_eq. unfold ws_head.
  destruct (ws1 c); [by exists s1|]. destruct s1 as [|c2 s2]; [done|].
  destruct (ws2 c c2); [exists s2; simpl; split; [done|lia]|].
  destruct s2 as [|c3 s3]; [done|].
  destruct (ws3 c c2 c3); [|done]. exists s3. simpl. split; [done|lia].
Qed.

Lemma ws2_underscore c : ws2 c "_" = false.
Proof. unfold ws2. by rewrite andb_false_r. Qed.

Lemma ws3_underscore_2 c e : ws3 c "_" e = false.
Proof.
  unfold ws3. change (code "_") with 95%N.
  by destruct (code c =? 225)%N, (code c =? 226)%N, (code c =? 227)%N,
              (code c =? 239)%N.
Qed.

Lemma ws3_underscore_3 c d : ws3 c d "_" = false.
Proof.
  unfold ws3. change (code "_") with 95%N.
  by destruct (code c =? 225)%N, (code c =? 226)%N, (code c =? 227)%N,
              (code c =? 239)%N, (code d =? 154)%N, (code d =? 128)%N,
              (code d =? 129)%N, (code d =? 187)%N.
Qed.

(** What [replace_ws] puts first is an underscore or the first character
    of its argument. *)
Lemma replace_ws_first c s1 :
  (∃ t, replace_ws (String c s1) = String "_" t) ∨
  replace_ws (String c s1) = String c (replace_ws s1).
Proof.
  destruct (ws_head (String c s1)) eqn:Hws.
  - left. destruct (replace_ws_replace c s1 Hws) as (r & -> & _). eauto.
  - right. by apply replace_ws_copy.
Qed.

Lemma ws_head_replace_ws c s1 :
  ws_head (String c s1) = false → ws_head (String c (replace_ws s1)) = false.
Proof.
  intros Hws. unfold ws_head in Hws |- *.
  destruct (ws1 c); [done|]. simpl in Hws |- *.
  destruct s1 as [|c2 s2]; [done|].
  destruct (replace_ws_first c2 s2) as [[t ->]| ->].
  { rewrite ws2_underscore. simpl. destruct t; [done|apply ws3_underscore_2]. }
  destruct (ws2 c c2); [done|]. simpl in Hws |- *.
  destruct s2 as [|c3 s3]; [done|].
  destruct (replace_ws_first c3 s3) as [[t ->]| ->]; [apply ws3_underscore_3|done].
Qed.

Lemma has_ws_replace_ws (s : string) : has_ws (replace_ws s) = false.
Proof.
  remember (String.length s) as n eqn:Hn.
  revert s Hn. induction (lt_wf n) as [n _ IH]; intros s ->.
  destruct s as [|c s1]; [done|].
  destruct (ws_head (String c s1)) eqn:Hws.
  - destruct (replace_ws_replace c s1 Hws) as (r & -> & Hlen).
    change (has_ws (String "_" (replace_ws r)))
      with (ws_head (String "_" (replace_ws r)) || has_ws (replace_ws r)).
    rewrite ws_head_ascii by done.
    apply (IH (String.length r)); [simpl; lia|done].
  - rewrite replace_ws_copy by done.
    change (has_ws (String c (replace_ws s1)))
      with (ws_head (String c (replace_ws s1)) || has_ws (replace_ws s1)).
    rewrite ws_head_replace_ws by done.
    apply (IH (String.length s1)); [simpl; lia|done].
Qed.

Lemma replace_ws_id (s : string) : has_ws s = false → replace_ws s = s.
Proof.
  induction s as [|c s1 IH]; [done|].
  change (has_ws (String c s1)) with (ws_head (String c s1) || has_ws s1).
  intros [Hhead Hrest]%orb_false_elim.
  rewrite replace_ws_copy by done. by rewrite IH.
Qed.

Lemma plain_pretty_N_go (x : N) (s : string) :
  plain s → plain (pretty_N_go x s).
Proof.
  revert s. induction (N.lt_wf_0 x) as [x _ IH]; intros s Hs.
  destruct (decide (x = 0)%N) as [->|Hx]; [by rewrite pretty_N_go_0|].
  rewrite pretty_N_go_step by lia. apply IH; [apply N.div_lt; lia|].
  destruct (pretty_N_char_ascii (x `mod` 10)) as (? & ? & _). by split.
Qed.

Lemma plain_pretty (z : Z) : plain (pretty z).
Proof.
  destruct z as [|p|p]; unfold pretty, pretty_Z.
  - by repeat split.
  - unfold pretty, pretty_positive, pretty, pretty_N.
    rewrite decide_False by done. by apply plain_pretty_N_go.
  - unfold pretty, pretty_positive, pretty, pretty_N.
    rewrite decide_False by done.
    change (plain (String "-" (pretty_N_go (N.pos p) ""))).
    split; [done|]. split; [done|]. by apply plain_pretty_N_go.
Qed.

Lemma has_ws_plain_app (p t : string) :
  plain p → has_ws (p +:+ t) = has_ws t.
Proof.
  induction p as [|c p IH]; [done|]. intros (Hc & Hws & Hp).
  change (has_ws (String c p +:+ t))
    with (ws_head (String c (p +:+ t)) || has_ws (p +:+ t)).
  rewrite ws_head_ascii by done. by apply IH.
Qed.

(** X13. A stored file name contains no white space, whatever the name of
    the uploaded file: no character of the class [\s] occurs in it. *)
Theorem filename_no_whitespace (now : Z) (file : upload) :
  has_ws (filename now file) = false.
Proof.
  unfold filename. rewrite has_ws_plain_app by apply plain_pretty.
  change ("-" +:+ replace_ws (originalname file))
    with (String "-" (replace_ws (originalname file))).
  change (has_ws (String "-" ?t)) with (ws_head (String "-" t) || has_ws t).
  rewrite ws_head_ascii by done. apply has_ws_replace_ws.
Qed.

(** X14. Replacing white space changes only names that contain some: a
    name without white space is stored as it is, and replacing twice is
    the same as replacing once. *)
Theorem replace_ws_idempotent (s : string) :
  (has_ws s = false → replace_ws s = s) ∧
  replace_ws (replace_ws s) = replace_ws s.
Proof.
  split; [apply replace_ws_id|]. apply replace_ws_id, has_ws_replace_ws.
Qed.

Lemma replace_ws_idempotent_witness :
  has_ws "drill-2.jpg" = false ∧ replace_ws "drill-2.jpg" = "drill-2.jpg".
Proof.
  split; [reflexivity|].
  exact (proj1 (replace_ws_idempotent "drill-2.jpg") eq_refl).
Defined.

(** X15. The stored file name tells the time of the upload: [parseInt] of
    the name is the time stamp, so two uploads get the same name exactly
    when they are named in the same millisecond and their original names
    agree after the replacement of white space. *)
Theorem filename_timestamp (now1 now2 : Z) (file1 file2 : upload) :
  parseInt (filename now1 file1) = Int now1 ∧
  (filename now1 file1 = filename now2 file2 ↔
   now1 = now2 ∧
   replace_ws (originalname file1) = replace_ws (originalname file2)).
Proof.
  assert (∀ now file, parseInt (filename now file) = Int now) as Hparse.
  { intros now file. unfold filename. by apply parseInt_pretty. }
  split; [apply Hparse|]. split.
  - intros Heq. assert (now1 = now2) as ->.
    { pose proof (Hparse now1 file1) as H1. rewrite Heq, Hparse in H1.
      by injection H1. }
    split; [done|]. unfold filename in Heq.
    apply (inj (String.append _)) in Heq. by injection Heq.
  - intros [-> Hname]. unfold filename. by rewrite Hname.
Qed.

Lemma filename_timestamp_witness :
  filename 5 (Upload "a b.jpg" []) = filename 5 (Upload "a_b.jpg" []) ∧
  parseInt (filename 5 (Upload "a b.jpg" [])) = Int 5.
Proof.
  destruct (filename_timestamp 5 5 (Upload "a b.jpg" []) (Upload "a_b.jpg" []))
    as [Hparse [_ Hsame]].
  split; [|exact Hparse]. apply Hsame. split; reflexivity.
Defined.

(** ** Ids as the routes read them *)

Lemma handle_same_number id1 id2 st :
  parseInt id1 = parseInt id2 →
  handle (GetItem id1) st = handle (GetItem id2) st ∧
  (∀ n d, handle (UpdateItem id1 n d) st = handle (UpdateItem id2 n d) st) ∧
  handle (DeleteItem id1) st = handle (DeleteItem id2) st ∧
  handle (GetPhoto id1) st = handle (GetPhoto id2) st ∧
  (∀ p now, handle (ReplacePhoto id1 p now) st = handle (ReplacePhoto id2 p now) st).
Proof.
  intros Heq. unfold handle, get_item, update_item, delete_item, get_photo,
    replace_photo. by rewrite Heq.
Qed.

(** X16. The id routes read an id with [parseInt], so text after the
    digits is ignored: an id parameter that is a decimal number followed by
    anything that starts with a non-digit (other than x or X) is served
    exactly like the number alone, by Get, Update, Delete, GetPhoto and
    ReplacePhoto. *)
Theorem id_with_trailing_text (z : Z) (rest : string) (st : state) :
  stops rest →
  let id := pretty z +:+ rest in
  parseInt id = Int z ∧
  handle (GetItem id) st = handle (GetItem (pretty z)) st ∧
  (∀ n d, handle (UpdateItem id n d) st = handle (UpdateItem (pretty z) n d) st) ∧
  handle (DeleteItem id) st = handle (DeleteItem (pretty z)) st ∧
  handle (GetPhoto id) st = handle (GetPhoto (pretty z)) st ∧
  (∀ p now, handle (ReplacePhoto id p now) st
            = handle (ReplacePhoto (pretty z) p now) st).
Proof.
  intros Hrest. cbn zeta. split; [by apply parseInt_pretty|].
  apply handle_same_number. by rewrite parseInt_pretty, parseInt_pretty_id.
Qed.

Lemma id_with_trailing_text_witness :
  let st := exec [Register (Some "Drill") None None 5] initial in
  stops "abc" ∧
  (handle (DeleteItem "1abc") st).1
  = Response 200 (Json (JObj [("message", JStr "Річ з ID 1 успішно видалена")])).
Proof.
  assert (stops "abc") as Hstops by (by repeat split).
  split; [exact Hstops|].
  destruct (id_with_trailing_text 1 "abc"
              (exec [Register (Some "Drill") None None 5] initial) Hstops)
    as (_ & _ & _ & Hdelete & _).
  exact (f_equal fst Hdelete).
Defined.

(** ** Requests that only read *)

Lemma handle_read_only r st :
  read_only r = true →
  inventoryItems (handle r st).2 = inventoryItems st ∧
  nextId (handle r st).2 = nextId st ∧
  files (handle r st).2 = files st.
Proof.
  destruct r; try done; intros _; simpl.
  - unfold get_item. by case_match.
  - unfold get_photo, sendFile. by repeat case_match.
  - unfold search. by case_match.
Qed.

(** X17. List, Get, GetPhoto and Search only read: after any sequence of
    such requests the catalog, the counter and the cache directory are
    what they were. *)
Theorem reads_change_nothing (rs : list request) (st : state) :
  Forall (λ r, read_only r = true) rs →
  inventoryItems (exec rs st) = inventoryItems st ∧
  nextId (exec rs st) = nextId st ∧
  files (exec rs st) = files st.
Proof.
  revert st. induction rs as [|r rs IH]; intros st Hrs; [done|].
  apply Forall_cons in Hrs as [Hr Hrs]. rewrite exec_cons.
  destruct (handle_read_only r st Hr) as (<- & <- & <-). by apply IH.
Qed.

Lemma reads_change_nothing_witness :
  let st := exec [Register (Some "Drill") None
                    (Some (Upload "a.jpg" [Byte.x01])) 5; DeleteItem "1";
                  Register (Some "Saw") None None 6] initial in
  let rs := [ListItems; GetItem "2"; GetPhoto "2"; Search (Some "2") None;
             GetItem "x"] in
  Forall (λ r, read_only r = true) rs ∧
  inventoryItems (exec rs st) = inventoryItems st.
Proof.
  assert (Forall (λ r, read_only r = true)
            [ListItems; GetItem "2"; GetPhoto "2"; Search (Some "2") None;
             GetItem "x"]) as Hrs by (by repeat constructor).
  split; [exact Hrs|].
  exact (proj1 (reads_change_nothing _ _ Hrs)).
Defined.

(** X18. For an item with a photo, Search with the photo flag on answers
    with the same document as Get. *)
Theorem search_matches_get (id : string) (st : state) (it : item) :
  reachable st →
  inventoryItems st !! parseInt id = Some it →
  is_Some (Photo it) →
  (handle (Search (Some id) (Some "on")) st).1 = (handle (GetItem id) st).1.
Proof.
  intros Hst Hit Hphoto. unfold handle, search, get_item, findItem, text.
  simpl. rewrite Hit. unfold prepareItemResponse.
  rewrite (reachable_Photo st _ it Hst Hit).
  by rewrite (bool_decide_eq_true_2 _ Hphoto).
Qed.

Lemma search_matches_get_witness :
  let st := exec [Register (Some "Drill") None
                    (Some (Upload "a.jpg" [Byte.x01])) 5] initial in
  reachable st ∧
  inventoryItems st !! parseInt "1" = Some (Item 1 "Drill" "" (Some "5-a.jpg")) ∧
  (handle (Search (Some "1") (Some "on")) st).1 = (handle (GetItem "1") st).1.
Proof.
  split; [by apply reachable_exec, reachable_start|].
  split; [reflexivity|].
  apply (search_matches_get "1" _ (Item 1 "Drill" "" (Some "5-a.jpg")));
    [by apply reachable_exec, reachable_start | reflexivity | by eexists].
Defined.

(** ** Configuration *)

Lemma pretty_truthy (z : Z) : truthy (Some (pretty z)) = true.
Proof.
  apply bool_decide_eq_true.
  destruct (pretty_Z_head z "") as (c & r & Hz & _).
  rewrite append_empty in Hz. by rewrite Hz.
Qed.

(** X19. Host and port are the environment variable when it is set and
    not empty, else the command-line option when that is given and not
    empty, else 0.0.0.0 and 3000.  The string chosen for the port is read
    with [parseInt], whatever it holds: a decimal number is the port, and a
    value that is no number gives NaN, with no fall back to the option or
    to 3000. *)
Theorem configuration_precedence
    (z : Z) (s : string) (opt unset unset' : option string) :
  s ≠ "" →
  unset = None ∨ unset = Some "" →
  unset' = None ∨ unset' = Some "" →
  (port (Some s) opt = parseInt s ∧ host (Some s) opt = s) ∧
  (port unset (Some s) = parseInt s ∧ host unset (Some s) = s) ∧
  (port unset unset' = Int 3000 ∧ host unset unset' = "0.0.0.0") ∧
  port (Some (pretty z)) opt = Int z ∧
  port unset (Some (pretty z)) = Int z ∧
  port (Some "abc") opt = NaN ∧
  port unset (Some "abc") = NaN.
Proof.
  intros Hs Hunset Hunset'.
  assert (∀ t o, t ≠ "" → or_else (Some t) o = Some t) as Hfirst.
  { intros t o Ht. unfold or_else, truthy. by rewrite bool_decide_eq_true_2. }
  assert (∀ o, or_else unset o = o) as Hskip.
  { intros o. by destruct Hunset as [-> | ->]. }
  assert (∀ o, or_else unset' o = o) as Hskip'.
  { intros o. by destruct Hunset' as [-> | ->]. }
  assert (pretty z ≠ "") as Hz.
  { pose proof (pretty_truthy z) as Ht. by apply bool_decide_eq_true in Ht. }
  unfold port, host.
  split; [by rewrite !Hfirst|].
  split; [by rewrite !Hskip, !Hfirst|].
  split; [by rewrite !Hskip, !Hskip'|].
  split; [by rewrite !Hfirst, <-parseInt_pretty_id|].
  split; [by rewrite !Hskip, !Hfirst, <-parseInt_pretty_id|].
  split; [by rewrite !Hfirst|].
  by rewrite !Hskip, !Hfirst.
Qed.

Lemma configuration_precedence_witness :
  "localhost" ≠ "" ∧
  (Some "" = None ∨ Some "" = Some "") ∧
  (@None string = None ∨ @None string = Some "") ∧
  port (Some "8080") (Some "3001") = Int 8080 ∧
  port (Some "abc") (Some "3001") = NaN ∧
  host (Some "localhost") (Some "10.0.0.1") = "localhost" ∧
  host (Some "") (Some "localhost") = "localhost" ∧
  host (Some "") None = "0.0.0.0" ∧
  port (Some "") None = Int 3000.
Proof.
  split; [done|]. split; [by right|]. split; [by left|].
  destruct (configuration_precedence 8080 "localhost" (Some "3001")
              (Some "") None ltac:(done) ltac:(by right) ltac:(by left))
    as (_ & [_ Hopt] & [Hport3000 Hhost0] & Hport & _ & Hnan & _).
  destruct (configuration_precedence 8080 "localhost" (Some "10.0.0.1")
              (Some "") None ltac:(done) ltac:(by right) ltac:(by left))
    as ([_ Hhost] & _).
  split; [exact Hport|]. split; [exact Hnan|]. split; [exact Hhost|].
  split; [exact Hopt|]. split; [exact Hhost0|exact Hport3000].
Defined.

(** ** Accounting of entries *)

Lemma map_size_delete_S (m : gmap number item) k it :
  m !! k = Some it → size m = S (size (delete k m)).
Proof.
  intros Hk. rewrite <-(insert_delete_id m k it Hk) at 1.
  apply map_size_insert_None, lookup_delete_eq.
Qed.

Lemma deletions_cons r rs st :
  deletions (r :: rs) st =
  (match r with
   | DeleteItem _ => if bool_decide (status (handle r st).1 = 200%Z) then 1 else 0
   | _ => 0
   end + deletions rs (handle r st).2)%nat.
Proof. done. Qed.

Lemma assigned_id_other res : status res ≠ 201 → assigned_id res = None.
Proof.
  intros Hres. destruct (assigned_id res) as [n|] eqn:Hn; [|done].
  by apply assigned_id_status in Hn.
Qed.

(** One request: an entry more exactly when an id is given out, an entry
    less exactly when a Delete is answered with 200. *)
Lemma handle_size r st :
  catalog_ok st →
  (size (inventoryItems (handle r st).2) + deletions [r] st
   = size (inventoryItems st)
     + match assigned_id (handle r st).1 with Some _ => 1 | None => 0 end)%nat.
Proof.
  intros Hok. pose proof Hok as [_ Hitems].
  rewrite deletions_cons. simpl deletions. rewrite Nat.add_0_r.
  destruct r.
  - destruct (truthy inventory_name) eqn:Hname.
    + destruct inventory_name as [name|]; [|done].
      rewrite handle_register_named by (by apply bool_decide_eq_true in Hname).
      cbn zeta. cbn [fst snd inventoryItems]. simpl.
      rewrite map_size_insert_None; [lia|]. apply catalog_ok_above; [done|lia].
    + pose proof (upload_single_inventoryItems photo now st) as Hup.
      unfold handle. destruct (upload_single photo now st) as [req_file st1].
      rewrite register_falsy_name by done. simpl in *.
      rewrite unlink_photo_inventoryItems, Hup. lia.
  - simpl. lia.
  - unfold handle, get_item. destruct (findItem _ st) as [res|it] eqn:Hfind;
      cbn [fst snd].
    + apply findItem_inl in Hfind as [_ Hres].
      rewrite assigned_id_other by (by rewrite Hres). lia.
    + simpl. lia.
  - unfold handle, update_item. destruct (findItem _ st) as [res|it] eqn:Hfind;
      cbn [fst snd].
    + apply findItem_inl in Hfind as [_ Hres].
      rewrite assigned_id_other by (by rewrite Hres). lia.
    + apply findItem_inr in Hfind. simpl.
      rewrite map_size_insert_Some by done. lia.
  - unfold handle, delete_item. destruct (findItem _ st) as [res|it] eqn:Hfind;
      cbn [fst snd].
    + apply findItem_inl in Hfind as [_ Hres].
      rewrite assigned_id_other by (by rewrite Hres).
      rewrite bool_decide_eq_false_2 by (by rewrite Hres). lia.
    + apply findItem_inr in Hfind. destruct (Hitems _ _ Hfind) as (Hk & _).
      simpl. rewrite unlink_photo_inventoryItems.
      rewrite Hk in Hfind. rewrite (map_size_delete_S _ _ _ Hfind). lia.
  - unfold handle.
    rewrite assigned_id_other
      by (unfold get_photo, sendFile; by repeat case_match).
    assert (inventoryItems (get_photo id st).2 = inventoryItems st) as ->
      by (unfold get_photo, sendFile; by repeat case_match).
    lia.
  - pose proof (upload_single_inventoryItems photo now st) as Hup.
    unfold handle. destruct (upload_single photo now st) as [req_file st1].
    simpl in Hup. unfold replace_photo.
    destruct (findItem _ st1) as [res|it] eqn:Hfind; cbn [fst snd].
    + apply findItem_inl in Hfind as [_ Hres].
      rewrite assigned_id_other by (by rewrite Hres). rewrite Hup. lia.
    + apply findItem_inr in Hfind. destruct req_file as [f|]; simpl.
      * rewrite unlink_photo_inventoryItems.
        rewrite map_size_insert_Some by done. rewrite Hup. lia.
      * rewrite Hup. lia.
  - unfold handle.
    rewrite assigned_id_other by (unfold search; by case_match).
    assert (inventoryItems (search id has_photo st).2 = inventoryItems st) as ->
      by (unfold search; by case_match).
    lia.
Qed.

Lemma exec_size rs st :
  catalog_ok st →
  (size (inventoryItems (exec rs st)) + deletions rs st
   = size (inventoryItems st) + length (assigned_ids (responses rs st)))%nat.
Proof.
  revert st. induction rs as [|r rs IH]; intros st Hok; [done|].
  rewrite exec_cons, responses_cons, deletions_cons, assigned_ids_cons.
  pose proof (handle_size r st Hok) as Hstep.
  rewrite deletions_cons in Hstep. simpl deletions in Hstep.
  specialize (IH (handle r st).2 (handle_ok r st Hok)).
  destruct (assigned_id (handle r st).1); simpl length; lia.
Qed.

(** X20. No entry is lost and none appears from nowhere: after any
    sequence of requests from the start, the number of catalog entries is
    the number of ids given out less the number of Delete requests that
    were answered with 200. *)
Theorem catalog_size_accounting
    (fs0 : gmap string (list Byte.byte)) (rs : list request) :
  (size (inventoryItems (exec rs (start fs0))) + deletions rs (start fs0)
   = length (assigned_ids (responses rs (start fs0))))%nat.
Proof.
  rewrite (exec_size rs (start fs0)) by apply start_ok. simpl.
  by rewrite map_size_empty.
Qed.
